(** * The cayley query cache: configuration, cache lookup, request
      multiplexer and client streams

    A shallow embedding of package [cache] together with the properties its
    specification states about it: the cache, its options and the size
    parser; the request that multiplexes one backend stream, in its two
    revisions; the stream materializers handed to clients; the go-fuzz
    harness of the size option.  Beside the cache: the range and base
    iterators, and the cache manager of the Cassandra store.

    Conventions of the embedding:
    - Go [int], [int64] and [time.Duration] values are integers in [Z];
      where the source does arithmetic on them the saturation or wrap-around
      is written out.
    - Go [string]s are byte strings, [string] here.
    - A Go function that may panic or block returns a [result]; [error] values are
      [option]s of an error type, [None] being [nil].
    - Goroutines communicating over channels are a labelled transition
      system whose labels are the rendezvous of the source. *)

From Stdlib Require Import ZArith Lia Ascii String.
From stdpp Require Import gmap strings list.

Open Scope Z_scope.

(** ** Outcomes of Go calls *)

(** A call returns, panics with a message, or waits for ever on a channel. *)
Inductive result (A : Type) : Type :=
| Return (a : A)
| Panic (msg : string)
| Blocked.
Arguments Return {A} a.
Arguments Panic {A} msg.
Arguments Blocked {A}.

Definition rbind {A B} (r : result A) (k : A -> result B) : result B :=
  match r with
  | Return a => k a
  | Panic msg => Panic msg
  | Blocked => Blocked
  end.

#[global] Instance result_ret : MRet result := @Return.
#[global] Instance result_bind : MBind result := fun A B k r => rbind r k.

(** [s[i]] on a slice: a run-time panic when [i] is out of range. *)
Definition index_slice {A} (s : list A) (i : nat) : result A :=
  match s !! i with
  | Some a => Return a
  | None => Panic "index out of range"
  end.

(** [int] arithmetic, on the platforms where [int] has 64 bits: a sum is
    reduced to the range of the type. *)
Definition wrap_int (z : Z) : Z := (z + 2 ^ 63) mod 2 ^ 64 - 2 ^ 63.

(** ** Configuration: the size string and the cache options *)

Module Config.

(** The errors the configuration code builds. *)
Inductive error : Type :=
| ErrSizeString (sz : string)
    (* fmt.Errorf("Unable to parse size string %v", sz) *)
| ErrNumSyntax (fn num : string)
    (* &strconv.NumError{Func: fn, Num: num, Err: strconv.ErrSyntax} *)
| ErrNumRange (fn num : string)
    (* &strconv.NumError{Func: fn, Num: num, Err: strconv.ErrRange} *)
| ErrSizeType (ty : string).
    (* fmt.Errorf("Unable to convert %T (%#v) into int64 (n_bytes)", sz, sz) *)

(** *** The regular expression [sizexp]

    The pattern is anchored at both ends and reads, in order: any number of
    decimal digits; optionally a dot followed by any number of digits (a
    group that does not capture); optionally one space; a capturing group
    holding at most one letter among k, m, g, t, p in either case;
    optionally a letter b in either case.

    The pattern has one capturing group, the unit letter; the numeric prefix
    sits outside every group. *)

Definition is_digit (c : ascii) : bool :=
  (48 <=? nat_of_ascii c)%nat && (nat_of_ascii c <=? 57)%nat.

Definition is_dot (c : ascii) : bool := bool_decide (c = "."%char).

Definition is_space (c : ascii) : bool := bool_decide (c = " "%char).

Definition is_unit (c : ascii) : bool :=
  bool_decide (c ∈ ["k"; "m"; "g"; "t"; "p"; "K"; "M"; "G"; "T"; "P"]%char).

Definition is_b (c : ascii) : bool :=
  bool_decide (c ∈ ["b"; "B"]%char).

(** Regular expressions, as far as the pattern uses them, and the strings
    they match. *)
Inductive regex : Type :=
| Class (p : ascii -> bool)
| Cat (r1 r2 : regex)
| Opt (r : regex)
| Star (r : regex).

Inductive matches : regex -> list ascii -> Prop :=
| matches_class p c : p c = true -> matches (Class p) [c]
| matches_cat r1 r2 s1 s2 :
    matches r1 s1 -> matches r2 s2 -> matches (Cat r1 r2) (s1 ++ s2)
| matches_opt_none r : matches (Opt r) []
| matches_opt_some r s : matches r s -> matches (Opt r) s
| matches_star_nil r : matches (Star r) []
| matches_star_cons r s1 s2 :
    matches r s1 -> matches (Star r) s2 -> matches (Star r) (s1 ++ s2).

(** The pattern in three stretches: what precedes the capturing group, the
    group, what follows it. *)
Definition sizexp_number : regex :=
  Cat (Star (Class is_digit))
    (Cat (Opt (Cat (Class is_dot) (Star (Class is_digit))))
       (Opt (Class is_space))).
Definition sizexp_unit : regex := Opt (Class is_unit).
Definition sizexp_b : regex := Opt (Class is_b).

(** The whole of [s] matches [sizexp] with [u] in the capturing group. *)
Definition sizexp_matches (s u : list ascii) : Prop :=
  exists pre b : list ascii,
    s = pre ++ u ++ b /\
    matches sizexp_number pre /\ matches sizexp_unit u /\ matches sizexp_b b.

(** The matcher.  The character classes of the five parts are pairwise
    disjoint, so there is one way to split a matching string and the
    leftmost-first search of Go's [regexp] finds it by taking each part
    greedily ([submatch_sound], [submatch_complete]). *)

(** Any number of digits. *)
Fixpoint digits (s : list ascii) : list ascii * list ascii :=
  match s with
  | c :: rest =>
      if is_digit c then let '(ds, tl) := digits rest in (c :: ds, tl)
      else ([], s)
  | [] => ([], [])
  end.

(** Optionally a dot and digits. *)
Definition fraction (s : list ascii) : list ascii * list ascii :=
  match s with
  | c :: rest =>
      if is_dot c then let '(ds, tl) := digits rest in (c :: ds, tl)
      else ([], s)
  | [] => ([], [])
  end.

(** Optionally one space. *)
Definition space (s : list ascii) : list ascii :=
  match s with
  | c :: rest => if is_space c then rest else s
  | [] => []
  end.

(** The captured unit letter, possibly empty. *)
Definition unit_letter (s : list ascii) : list ascii * list ascii :=
  match s with
  | c :: rest => if is_unit c then ([c], rest) else ([], s)
  | [] => ([], [])
  end.

(** Optionally the letter b. *)
Definition b_letter (s : list ascii) : list ascii :=
  match s with
  | c :: rest => if is_b c then rest else s
  | [] => []
  end.

(** The text of the capturing group when the whole of [s] matches. *)
Definition submatch (s : list ascii) : option (list ascii) :=
  let '(_, s1) := digits s in
  let '(_, s2) := fraction s1 in
  let s3 := space s2 in
  let '(u, s4) := unit_letter s3 in
  let s5 := b_letter s4 in
  match s5 with
  | [] => Some u
  | _ :: _ => None
  end.

(** [sizexp.FindStringSubmatch(sz)]: the whole match followed by the text of
    each capturing group, or the empty slice when [sz] does not match. *)
Definition FindStringSubmatch (sz : string) : list string :=
  match submatch (list_ascii_of_string sz) with
  | Some u => [sz; string_of_list_ascii u]
  | None => []
  end.

(** *** Floating point

    [parseSizeBytes] computes in [float64].  The type, [strconv.ParseFloat],
    the product by 1024 and the conversion to [int64] belong to Go, not to
    this package: they are the operations of an interface. *)
Class Float64 : Type := {
  float64 : Type;
  (** [strconv.ParseFloat(s, 64)] *)
  ParseFloat : string -> float64 * option error;
  (** [bytes *= 1024] *)
  mul1024 : float64 -> float64;
  (** [int64(bytes)] *)
  to_int64 : float64 -> Z
}.

(** What [strconv.ParseFloat] does on the shortest inputs: the empty string
    and a single character that is not a decimal digit are syntax errors
    (a number has a digit; [inf], [infinity] and [nan] are longer). *)
Class ParseFloatSyntax `{Float64} : Prop := {
  ParseFloat_empty :
    (ParseFloat "").2 = Some (ErrNumSyntax "ParseFloat" "");
  ParseFloat_letter :
    forall c : ascii,
      is_digit c = false ->
      (ParseFloat (String c "")).2 = Some (ErrNumSyntax "ParseFloat" (String c ""))
}.

(** [strings.ToLower] on ASCII. *)
Definition lower_ascii (c : ascii) : ascii :=
  let n := nat_of_ascii c in
  if (65 <=? n)%nat && (n <=? 90)%nat then ascii_of_nat (n + 32) else c.

Definition ToLower (s : string) : string :=
  string_of_list_ascii (lower_ascii <$> list_ascii_of_string s).

Section parse.
Context `{Float64}.

(** The [switch] of [parseSizeBytes] is a jump table: each [case] multiplies
    by 1024 and falls through to the next one. *)
Definition case_default (bytes : float64) : Z * option error :=
  (to_int64 bytes, None).
Definition case_k (bytes : float64) := case_default (mul1024 bytes).
Definition case_m (bytes : float64) := case_k (mul1024 bytes).
Definition case_g (bytes : float64) := case_m (mul1024 bytes).
Definition case_t (bytes : float64) := case_g (mul1024 bytes).
Definition case_p (bytes : float64) := case_t (mul1024 bytes).

Definition parseSizeBytes (sz : string) : result (Z * option error) :=
  let m := FindStringSubmatch sz in
  if bool_decide (length m = 0%nat) then
    Return (0, Some (ErrSizeString sz))
  else
    m1 ← index_slice m 1;
    let '(bytes, err) := ParseFloat m1 in
    match err with
    | Some e => Return (0, Some e)
    | None =>
        m2 ← index_slice m 2;
        let unit := ToLower m2 in
        Return (if String.eqb unit "p" then case_p bytes
                else if String.eqb unit "t" then case_t bytes
                else if String.eqb unit "g" then case_g bytes
                else if String.eqb unit "m" then case_m bytes
                else if String.eqb unit "k" then case_k bytes
                else case_default bytes)
    end.

End parse.

(** *** An instance: exact decimals

    [mant / 10 ^ scale], read from the unsigned literals without exponent
    that the numeric prefix of [sizexp] admits.  The arithmetic is exact:
    the rounding of binary64 is not represented. *)
Record decimal : Type := Decimal { mant : Z; scale : nat }.

Definition digit_value (c : ascii) : Z := Z.of_nat (nat_of_ascii c) - 48.

Definition digits_value (ds : list ascii) : Z :=
  foldl (fun acc c => 10 * acc + digit_value c) 0 ds.

Definition parse_decimal (s : string) : decimal * option error :=
  let '(ip, r1) := digits (list_ascii_of_string s) in
  let '(fp, r2) :=
    match r1 with
    | "."%char :: r => digits r
    | _ => ([], r1)
    end in
  match r2, ip ++ fp with
  | [], _ :: _ => (Decimal (digits_value (ip ++ fp)) (length fp), None)
  | _, _ => (Decimal 0 0, Some (ErrNumSyntax "ParseFloat" s))
  end.

Definition exact_decimal : Float64 := {|
  float64 := decimal;
  ParseFloat := parse_decimal;
  mul1024 d := Decimal (mant d * 1024) (scale d);
  to_int64 d := Z.quot (mant d) (10 ^ Z.of_nat (scale d))
|}.

End Config.

(** ** The cache and its options *)

Module CacheStore.
Import Config.

(** *** Time

    Instants and durations count nanoseconds.  [Time.Sub] saturates at the
    ends of the [Duration] range. *)
Definition minDuration : Z := - 2 ^ 63.
Definition maxDuration : Z := 2 ^ 63 - 1.
Definition Nanosecond : Z := 1.
Definition Second : Z := 1000000000 * Nanosecond.
Definition Minute : Z := 60 * Second.

Definition Sub (t u : Z) : Z := Z.max minDuration (Z.min maxDuration (t - u)).

(** [time.Since(t)] when the clock reads [now]. *)
Definition Since (now t : Z) : Z := Sub now t.

Section cache.
Context {Value Stream : Type} `{Float64}.

(** A stream of data from the backend database, created at [birth]. *)
Record cachedRequest : Type := {
  results : list Value;
  dbView : Stream;
  birth : Z;
  flags : Z
}.

Record Cache : Type := {
  timeout : Z;
  sizeBytes : Z;
  (* stable elements are recent ∪ frequent *)
  stable : gmap string cachedRequest;
  (* likewise, unstable = rHist ∪ fHist *)
  unstable : gmap string cachedRequest;
  recent : list cachedRequest;
  frequent : list cachedRequest;
  rHist : list cachedRequest;
  fHist : list cachedRequest
}.

Definition set_sizeBytes (sb : Z) (c : Cache) : Cache :=
  {| timeout := timeout c; sizeBytes := sb;
     stable := stable c; unstable := unstable c;
     recent := recent c; frequent := frequent c;
     rHist := rHist c; fHist := fHist c |}.

Definition set_timeout (t : Z) (c : Cache) : Cache :=
  {| timeout := t; sizeBytes := sizeBytes c;
     stable := stable c; unstable := unstable c;
     recent := recent c; frequent := frequent c;
     rHist := rHist c; fHist := fHist c |}.

(** A [CacheOption] is a function from a pointer to the cache to an
    [error]: here the cache after the call and the error returned. *)
Definition CacheOption : Type := Cache -> result (Cache * option error).

(** The dynamic type of the [interface{}] handed to [Size]. *)
Inductive ifce : Type :=
| I_int64 (n : Z)
| I_string (s : string)
| I_other (ty : string).   (* any other type, under the name [%T] prints *)

Definition Size (v : ifce) : CacheOption := fun c =>
  match v with
  | I_int64 sz => Return (set_sizeBytes sz c, None)
  | I_string sz =>
      r ← parseSizeBytes sz;
      match r.2 with
      | Some err => Return (c, Some err)
      | None => Return (set_sizeBytes r.1 c, None)
      end
  | I_other ty => Return (c, Some (ErrSizeType ty))
  end.

Definition Timeout (t : Z) : CacheOption := fun c =>
  Return (set_timeout t c, None).

(** The loop of [New] over its options: the first error ends it. *)
Fixpoint apply_options (opts : list CacheOption) (c : Cache)
  : result (option Cache * option error) :=
  match opts with
  | [] => Return (Some c, None)
  | opt :: rest =>
      r ← opt c;
      match r.2 with
      | Some err => Return (None, Some err)
      | None => apply_options rest r.1
      end
  end.

Definition New (opts : list CacheOption)
  : result (option Cache * option error) :=
  r ← parseSizeBytes "1GB";
  match r.2 with
  | Some err => Panic "parseSizeBytes returned error on initialization"
  | None =>
      apply_options opts
        {| timeout := 5 * Minute; sizeBytes := r.1;
           stable := ∅; unstable := ∅;
           recent := []; frequent := []; rHist := []; fHist := [] |}
  end.

(** What [Request] does with a query: the hit returns
    [cr.newMaterializer()]; everything else reaches the bookkeeping of a
    miss, which has no statements in the source. *)
Inductive lookup : Type :=
| Hit (cr : cachedRequest)
| Miss.

(** [c.Request(query, immutable)] when the clock reads [now]. *)
Definition Request (c : Cache) (now : Z) (query : string) (immutable : bool)
  : lookup :=
  match stable c !! query with
  | Some cr => if Since now (birth cr) <? timeout c then Hit cr else Miss
  | None => Miss
  end.

(** The zero value [&cache{}]. *)
Definition zero_cache : Cache :=
  {| timeout := 0; sizeBytes := 0; stable := ∅; unstable := ∅;
     recent := []; frequent := []; rHist := []; fHist := [] |}.

(** The go-fuzz entry point: it panics when the option reports an error and
    yet left a budget, and when the budget is negative. *)
Definition Fuzz (input : string) : result Z :=
  r ← Size (I_string input) zero_cache;
  let sb := sizeBytes r.1 in
  if negb (sb =? 0) && bool_decide (r.2 <> None) then Panic "size bytes, err"
  else if sb <? 0 then Panic "size bytes"
  else Return 0.

End cache.

Arguments cachedRequest : clear implicits.
Arguments Cache : clear implicits.
Arguments lookup : clear implicits.

End CacheStore.

(** ** The request: one materialized view shared by many streams

    The later revision of [request.go]: the request records its error in
    [r.err] and serves the streams of [stream_materializer.go]. *)

Module Request.

(** The unbuffered channels [pipe.out] are told apart by the order in which
    [askPipes] made them. *)
Definition ansCh : Type := nat.

Module valueAsk.
Record t {Value Err : Type} : Type := mk {
  index : Z;
  value : Value;
  err : option Err
}.
Arguments t : clear implicits.
Arguments mk {Value Err} index value err.
End valueAsk.

(** The [Materializer] interface, as far as the request uses its backend
    stream: [Materialize] advances the stream, [Error] reads its state. *)
Class Materializer (Value Err M : Type) : Type := {
  Materialize : M -> (Value * bool) * M;
  Error : M -> option Err
}.

Section request.
Context {Value Err M : Type} `{Materializer Value Err M}.
(** Go's [nil], the zero [graph.Value]. *)
Variable nil_value : Value.

(** The [request] struct together with the locals of the goroutines it
    starts: [waiting] belongs to [process]; every pull goroutine is either
    [spawned] (about to call [Materialize]) or [ready] (holding the value it
    offers on [materialized]).  [sent] lists what was sent on the [out]
    channels.  [calls] and [taken] are history: the invocations of
    [Materialize] on the backend stream and the receptions on
    [materialized]. *)
Record request : Type := {
  view : list Value;
  dbStream : M;
  streams : gset nat;
  err : option Err;
  waiting : list ansCh;
  spawned : nat;
  ready : list Value;
  pipes : nat;
  sent : list (ansCh * valueAsk.t Value Err);
  calls : nat;
  taken : nat
}.

(** [c.newRequest(dbStream)] *)
Definition newRequest (db : M) : request :=
  {| view := []; dbStream := db; streams := ∅; err := None;
     waiting := []; spawned := 0; ready := [];
     pipes := 0; sent := []; calls := 0; taken := 0 |}.

(** [r.view[i]] for an [int]: out of range panics, also below zero. *)
Definition view_at (r : request) (i : Z) : result Value :=
  if i <? 0 then Panic "index out of range"
  else index_slice (view r) (Z.to_nat i).

(** The [case pipe, ok := <-r.asks] arm of [process], for the ask read from
    [pipe.in] and the channel [pipe.out]. *)
Definition on_ask (r : request) (out : ansCh) (ask : valueAsk.t Value Err)
  : result request :=
  if valueAsk.index ask <? Z.of_nat (length (view r)) then
    (* No error, just serving a cached item *)
    v ← view_at r (valueAsk.index ask);
    let ans := valueAsk.mk (valueAsk.index ask) v (valueAsk.err ask) in
    Return {| view := view r; dbStream := dbStream r; streams := streams r;
              err := err r; waiting := waiting r;
              spawned := spawned r; ready := ready r; pipes := pipes r;
              sent := sent r ++ [(out, ans)];
              calls := calls r; taken := taken r |}
  else
    (* cache miss *)
    Return {| view := view r; dbStream := dbStream r; streams := streams r;
              err := err r;
              waiting := waiting r ++ [out];
              spawned := (if bool_decide (waiting r = []) then S (spawned r)
                          else spawned r);
              ready := ready r; pipes := pipes r; sent := sent r;
              calls := calls r; taken := taken r |}.

(** The body of a pull goroutine up to its send on [materialized]. *)
Definition on_pull (r : request) : request :=
  let '((val, ok), db) := Materialize (dbStream r) in
  {| view := view r; dbStream := db; streams := streams r;
     err := (if ok then err r else Error db);
     waiting := waiting r;
     spawned := pred (spawned r); ready := ready r ++ [val];
     pipes := pipes r; sent := sent r;
     calls := S (calls r); taken := taken r |}.

(** The request once the goroutines of a take have sent to the channels
    [chs]: each channel got the value and the request's error, nobody is
    left waiting. *)
Definition answered (r : request) (val : Value) (rest : list Value)
  (chs : list ansCh) : request :=
  {| view := view r; dbStream := dbStream r; streams := streams r;
     err := err r;
     waiting := [];
     spawned := spawned r; ready := rest; pipes := pipes r;
     sent := sent r ++ ((fun ch => (ch, valueAsk.mk 0 val (err r))) <$> chs);
     calls := calls r; taken := S (taken r) |}.

(** The [case val := <-materialized] arm of [process].  The loop starts one
    goroutine for every waiting channel, and the body of each names the
    loop variable [ansCh], of which the loop has a single one (Go before
    1.22).  The goroutines run once [process] has left the loop, when the
    variable holds the last channel of the list, and before the next event:
    [r.err] is the error the request holds at the take.  A lone waiter is
    sent the value and that error on its own channel, which is then closed.
    With two waiters or more every goroutine sends on the last channel: the
    first closes it and the send of the next one panics, the other waiters
    having been sent nothing. *)
Definition on_materialized (r : request) (val : Value) (rest : list Value)
  : result request :=
  match waiting r with
  | [] => Return (answered r val rest [])
  | [ansCh] => Return (answered r val rest [ansCh])
  | _ :: _ :: _ => Panic "send on closed channel"
  end.

(** The ask [getValue(index)] puts on [pipe.in]. *)
Definition getValue_ask (index : Z) : valueAsk.t Value Err :=
  valueAsk.mk (if index <? 0 then 0 else index) nil_value None.

(** [r.askPipes()]: a new pair of channels, handed to [process]. *)
Definition askPipes (r : request) : ansCh * request :=
  (pipes r,
   {| view := view r; dbStream := dbStream r; streams := streams r;
      err := err r; waiting := waiting r;
      spawned := spawned r; ready := ready r; pipes := S (pipes r);
      sent := sent r; calls := calls r; taken := taken r |}).

(** What can happen to a request: a stream calls [getValue(index)] and its
    ask reaches [process]; a pull goroutine runs; [process] takes the value
    a pull goroutine offers. *)
Inductive event : Type :=
| EAsk (index : Z)
| EPull
| ETake.

(** One event.  An event that cannot happen in [r] leaves it as it is. *)
Definition step (r : request) (e : event) : result request :=
  match e with
  | EAsk index =>
      let '(out, r1) := askPipes r in
      on_ask r1 out (getValue_ask index)
  | EPull =>
      match spawned r with
      | O => Return r
      | S _ => Return (on_pull r)
      end
  | ETake =>
      match ready r with
      | [] => Return r
      | val :: rest => on_materialized r val rest
      end
  end.

Fixpoint exec (r : request) (evs : list event) : result request :=
  match evs with
  | [] => Return r
  | e :: evs' => r' ← step r e; exec r' evs'
  end.

(** The pull goroutines alive. *)
Definition outstanding (r : request) : nat := (spawned r + length (ready r))%nat.

(** What [process] keeps true between two events: at most one pull
    goroutine is alive, one is alive exactly while somebody waits, and every
    call of [Materialize] has had its value taken or still holds it. *)
Definition pulls_inv (r : request) : Prop :=
  (outstanding r <= 1)%nat /\
  (waiting r = [] <-> outstanding r = 0%nat) /\
  calls r = (taken r + length (ready r))%nat.

(** What was sent on channel [ch], oldest first. *)
Definition answers (r : request) (ch : ansCh) : list (valueAsk.t Value Err) :=
  snd <$> filter (fun p => p.1 = ch) (sent r).

(** [r.getValue(index)] run to its [return], no other stream asking
    meanwhile: the ask, then the pull and its reception if the answer is not
    there yet.  [ans := <-pipe.out] waits for ever when no answer comes. *)
Definition getValue (r : request) (index : Z) : result ((Value * bool) * request) :=
  r1 ← step r (EAsk index);
  r2 ← (match answers r1 (pipes r) with
        | [] => exec r1 [EPull; ETake]
        | _ :: _ => Return r1
        end);
  match answers r2 (pipes r) with
  | ans :: _ =>
      Return ((valueAsk.value ans, bool_decide (valueAsk.err ans = None)), r2)
  | [] => Blocked
  end.

(** [r.removeStream(st)] *)
Definition removeStream (r : request) (st : nat) : request :=
  {| view := view r; dbStream := dbStream r; streams := streams r ∖ {[st]};
     err := err r; waiting := waiting r;
     spawned := spawned r; ready := ready r; pipes := pipes r;
     sent := sent r; calls := calls r; taken := taken r |}.

End request.

Arguments request : clear implicits.

End Request.

(** ** Streams: the materializers handed to clients *)

Module Stream.
Import Request.

Section stream.
Context {Value Err M : Type} `{Materializer Value Err M}.
Variable nil_value : Value.

Abbreviation request := (Request.request Value Err M).

(** The [stream] struct and its goroutine [process].  [reset] and [values]
    are unbuffered channels: [reset_closed] records [close(st.reset)];
    [offered] is the value [process] holds while it waits on
    [st.values <- val]; [returned] records that [process] has returned,
    which closes [values]. *)
Record stream : Type := {
  id : nat;
  index : Z;
  err : option Err;
  closed : bool;
  reset_closed : bool;
  offered : option Value;
  returned : bool
}.

(** [r.newStreamMaterializer()]: the goroutine is started and has yet to
    run. *)
Definition newStreamMaterializer (id : nat) : stream :=
  {| id := id; index := 0; err := None; closed := false;
     reset_closed := false; offered := None; returned := false |}.

(** The [default] arm of [process]: advance, ask the host, then wait on
    [st.values] with the value, or record the error and return. *)
Definition produce (st : stream) (host : request) : result (stream * request) :=
  let i := wrap_int (index st + 1) in
  '((val, ok), host') ← getValue nil_value host i;
  if (ok : bool) then
    Return ({| id := id st; index := i; err := err st; closed := closed st;
               reset_closed := reset_closed st; offered := Some val;
               returned := false |},
            host')
  else
    Return ({| id := id st; index := i; err := Request.err host';
               closed := closed st;
               reset_closed := reset_closed st; offered := None;
               returned := true |},
            host').

(** One turn of the loop of [process], which the goroutine takes on its
    own, whether or not the consumer has called anything: nothing while it
    waits on [st.values] or once it has returned; with [reset] closed the
    [select] takes that case and the goroutine returns; otherwise the
    [default] arm. *)
Definition process (st : stream) (host : request) : result (stream * request) :=
  if returned st then Return (st, host)
  else
    match offered st with
    | Some _ => Return (st, host)
    | None =>
        if reset_closed st then
          Return ({| id := id st; index := index st; err := err st;
                     closed := closed st; reset_closed := reset_closed st;
                     offered := None; returned := true |},
                  host)
        else produce st host
    end.

(** [st.Reset()]: the send [st.reset <- signal] completes when the
    goroutine is at its [select], which then rewinds; a goroutine that
    waits on [st.values], or has returned, never takes the signal. *)
Definition Reset (st : stream) : result stream :=
  if closed st then Panic "Cannot reset closed stream"
  else if returned st then Blocked
  else
    match offered st with
    | Some _ => Blocked
    | None =>
        Return {| id := id st; index := 0; err := err st; closed := closed st;
                  reset_closed := reset_closed st; offered := None;
                  returned := returned st |}
    end.

(** The receive [<-st.values] where it can complete: the value the
    goroutine waits with, the goroutine going on; or the zero value and
    [false] once [values] is closed. *)
Definition receive (st : stream) : option ((Value * bool) * stream) :=
  match offered st with
  | Some val =>
      Some ((val, true),
            {| id := id st; index := index st; err := err st;
               closed := closed st; reset_closed := reset_closed st;
               offered := None; returned := returned st |})
  | None => if returned st then Some ((nil_value, false), st) else None
  end.

(** [st.Materialize()]: the receive; when the goroutine has nothing to
    offer yet the receive waits for its next turn. *)
Definition Materialize (st : stream) (host : request)
  : result ((Value * bool) * stream * request) :=
  if closed st then Panic "Cannot materialize from closed stream"
  else
    match receive st with
    | Some (a, st') => Return (a, st', host)
    | None =>
        '(st1, host1) ← process st host;
        match receive st1 with
        | Some (a, st') => Return (a, st', host1)
        | None => Blocked
        end
    end.

(** [st.Close()]: the goroutine finds [reset] closed at its next
    [select]. *)
Definition Close (st : stream) (host : request)
  : option Err * stream * request :=
  if closed st then (err st, st, host)
  else
    (err st,
     {| id := id st; index := index st; err := err st; closed := true;
        reset_closed := true; offered := offered st;
        returned := returned st |},
     removeStream host (id st)).

(** [st.Error()] *)
Definition Error (st : stream) : option Err := err st.

End stream.

End Stream.

(** ** The earlier revision of the request

    [request.go] as it stood with client materializers: the index travels by
    pointer, an answer carries the index it was served at, and an item of
    the view is served only while fresh or immutable. *)

Module RequestV0.
Import Request.

Section request.
Context {Value Err M : Type} `{Materializer Value Err M}.
Variable nil_value : Value.

(** An item of the view. *)
Record cacheItem : Type := {
  value : Value;
  immutable : bool;
  birth : Z
}.

(** The request; [err], [waiting] and the pull goroutines are locals of the
    managing goroutine, laid out as in [Request.request]. *)
Record request : Type := {
  timeout : Z;                 (* r.cache.timeout *)
  view : list cacheItem;
  dbHost : M;
  err : option Err;
  waiting : list ansCh;
  spawned : nat;
  ready : list Value;
  pipes : nat;
  sent : list (ansCh * valueAsk.t Value Err);
  calls : nat;
  taken : nat
}.

Definition newRequest (timeout : Z) (db : M) : request :=
  {| timeout := timeout; view := []; dbHost := db; err := None;
     waiting := []; spawned := 0; ready := [];
     pipes := 0; sent := []; calls := 0; taken := 0 |}.

(** The scan [for i := ask.index; i < len(r.view); i++] over the items from
    position [i] on, [items] being [r.view[i:]]: the first item that is
    immutable or younger than the timeout. *)
Fixpoint first_fresh (timeout now : Z) (i : Z) (items : list cacheItem)
  : option (Z * Value) :=
  match items with
  | [] => None
  | it :: rest =>
      if immutable it || (CacheStore.Since now (birth it) <? timeout)
      then Some (i, value it)
      else first_fresh timeout now (i + 1) rest
  end.

(** The [case pipe := <-r.asks] arm when the clock reads [now]. *)
Definition on_ask (r : request) (now : Z) (out : ansCh)
  (ask : valueAsk.t Value Err) : result request :=
  let i := valueAsk.index ask in
  if i <? 0 then
    (* below zero the loop is entered and r.view[i] is out of range *)
    Panic "index out of range"
  else
    match first_fresh (timeout r) now i (drop (Z.to_nat i) (view r)) with
    | Some (j, v) =>
        (* Cache hit! Just fill out and send back *)
        Return {| timeout := timeout r; view := view r; dbHost := dbHost r;
                  err := err r; waiting := waiting r;
                  spawned := spawned r; ready := ready r; pipes := pipes r;
                  sent := sent r ++ [(out, valueAsk.mk j v (valueAsk.err ask))];
                  calls := calls r; taken := taken r |}
    | None =>
        (* Aw dang, we're out of values here to hand out *)
        Return {| timeout := timeout r; view := view r; dbHost := dbHost r;
                  err := err r;
                  waiting := waiting r ++ [out];
                  spawned := (if bool_decide (waiting r = []) then S (spawned r)
                              else spawned r);
                  ready := ready r; pipes := pipes r; sent := sent r;
                  calls := calls r; taken := taken r |}
    end.

Definition on_pull (r : request) : request :=
  let '((val, ok), db) := Materialize (dbHost r) in
  {| timeout := timeout r; view := view r; dbHost := db;
     err := (if ok then err r else Error db);
     waiting := waiting r;
     spawned := pred (spawned r); ready := ready r ++ [val];
     pipes := pipes r; sent := sent r;
     calls := S (calls r); taken := taken r |}.

(** The request once the goroutines of a take have sent to the channels
    [chs]; the answers carry [len(r.view)]. *)
Definition answered (r : request) (val : Value) (rest : list Value)
  (chs : list ansCh) : request :=
  {| timeout := timeout r; view := view r; dbHost := dbHost r;
     err := err r;
     waiting := [];
     spawned := spawned r; ready := rest; pipes := pipes r;
     sent := sent r ++
             ((fun ch => (ch, valueAsk.mk (Z.of_nat (length (view r))) val (err r)))
                <$> chs);
     calls := calls r; taken := S (taken r) |}.

(** The [case val := <-materialized] arm.  As in the later revision the
    goroutines of the loop share the variable [ansCh], and the local [err]:
    a lone waiter is answered on its channel, two waiters or more end in a
    send on the channel the first goroutine has closed. *)
Definition on_materialized (r : request) (val : Value) (rest : list Value)
  : result request :=
  match waiting r with
  | [] => Return (answered r val rest [])
  | [ansCh] => Return (answered r val rest [ansCh])
  | _ :: _ :: _ => Panic "send on closed channel"
  end.

(** [getValue(clientIndex)] up to its send on [pipe.in]: the index the
    pointer holds after the check, and the ask. *)
Definition getValue_ask (clientIndex : Z) : Z * valueAsk.t Value Err :=
  let clientIndex' := if clientIndex <? 0 then 0 else clientIndex in
  (clientIndex', valueAsk.mk clientIndex' nil_value None).

Inductive event : Type :=
| EAsk (now : Z) (clientIndex : Z)
| EPull
| ETake.

Definition step (r : request) (e : event) : result request :=
  match e with
  | EAsk now clientIndex =>
      on_ask
        {| timeout := timeout r; view := view r; dbHost := dbHost r;
           err := err r; waiting := waiting r;
           spawned := spawned r; ready := ready r; pipes := S (pipes r);
           sent := sent r; calls := calls r; taken := taken r |}
        now (pipes r) (getValue_ask clientIndex).2
  | EPull =>
      match spawned r with
      | O => Return r
      | S _ => Return (on_pull r)
      end
  | ETake =>
      match ready r with
      | [] => Return r
      | val :: rest => on_materialized r val rest
      end
  end.

Fixpoint exec (r : request) (evs : list event) : result request :=
  match evs with
  | [] => Return r
  | e :: evs' => r' ← step r e; exec r' evs'
  end.

Definition outstanding (r : request) : nat := (spawned r + length (ready r))%nat.

Definition pulls_inv (r : request) : Prop :=
  (outstanding r <= 1)%nat /\
  (waiting r = [] <-> outstanding r = 0%nat) /\
  calls r = (taken r + length (ready r))%nat.

End request.

Arguments request : clear implicits.
Arguments cacheItem : clear implicits.

End RequestV0.

(** ** Vocabulary of the properties *)

Module Vocabulary.
Import Config CacheStore.

(** The first character of [s] is in the class [p]. *)
Definition starts (p : ascii -> bool) (s : list ascii) : bool :=
  match s with
  | c :: _ => p c
  | [] => false
  end.

(** A size string as the option documents it: a number, then optionally a
    space, optionally a unit letter among k, m, g, t, p and optionally a b,
    in either case.  The number is written in decimal digits with at most
    one dot, and holds a digit. *)
Definition size_number : regex :=
  Cat (Star (Class is_digit))
    (Opt (Cat (Class is_dot) (Star (Class is_digit)))).

Definition size_suffix : regex :=
  Cat (Opt (Class is_space)) (Cat sizexp_unit sizexp_b).

Definition size_string (s : list ascii) : Prop :=
  exists num rest : list ascii,
    s = num ++ rest /\
    matches size_number num /\
    Exists (fun c => is_digit c = true) num /\
    matches size_suffix rest.

(** An argument of [Size] that is not a size: a string that is not a size
    string, be it that it does not match the pattern [sizexp] or that it
    matches and holds no number; or a value that is neither an [int64] nor
    a [string]. *)
Definition malformed (v : ifce) : Prop :=
  match v with
  | I_int64 _ => False
  | I_string sz => ~ size_string (list_ascii_of_string sz)
  | I_other _ => True
  end.

(** A cache holding one entry, born at instant 0 under the key [q], with
    the default timeout of five minutes. *)
Definition entry0 : cachedRequest unit unit :=
  {| results := []; dbView := tt; birth := 0; flags := 0 |}.

Definition cache0 : Cache unit unit :=
  {| timeout := 5 * Minute; sizeBytes := 0;
     stable := {[ "q"%string := entry0 ]}; unstable := ∅;
     recent := [entry0]; frequent := []; rHist := []; fHist := [] |}.

(** A backend stream that hands out the values of a list and then ends,
    cleanly or with an error. *)
Record script : Type := Script { items : list nat; failure : option string }.

#[global] Instance script_stream : Request.Materializer nat string script := {
  Request.Materialize s :=
    match items s with
    | v :: rest => ((v, true), Script rest (failure s))
    | [] => ((0%nat, false), s)
    end;
  Request.Error s :=
    match items s with
    | [] => failure s
    | _ :: _ => None
    end
}.

(** One reader after the other: each asks for its index and is answered
    before the next one asks. *)
Definition rounds (idxs : list Z) : list Request.event :=
  idxs ≫= (fun index => [Request.EAsk index; Request.EPull; Request.ETake]).


(** A request whose backend has failed at the first pull: the error is
    recorded and the one asker has been sent it. *)
Definition failed_request : Request.request nat string script :=
  {| Request.view := []; Request.dbStream := Script [] (Some "boom"%string);
     Request.streams := ∅; Request.err := Some "boom"%string;
     Request.waiting := []; Request.spawned := 0; Request.ready := [];
     Request.pipes := 1;
     Request.sent :=
       [(0%nat, Request.valueAsk.mk 0 0%nat (Some "boom"%string))];
     Request.calls := 1; Request.taken := 1 |}.

End Vocabulary.

(** ** The client materializers of the earlier revision *)

Module ClientV0.
Import Request.

Section client.
Context {Value Err M : Type} `{Materializer Value Err M}.
Variable nil_value : Value.

Abbreviation request := (RequestV0.request Value Err M).

(** What was sent on channel [ch], oldest first. *)
Definition answers (r : request) (ch : ansCh) : list (valueAsk.t Value Err) :=
  snd <$> filter (fun p => p.1 = ch) (RequestV0.sent r).

(** [r.getValue(clientIndex)] run to its [return] when the clock reads
    [now], no other client asking meanwhile: the value and the error of the
    answer, the index written back through the pointer, and the request. *)
Definition getValue (r : request) (now : Z) (clientIndex : Z)
  : result ((Value * option Err) * Z * request) :=
  r1 ← RequestV0.step nil_value r (RequestV0.EAsk now clientIndex);
  r2 ← (match answers r1 (RequestV0.pipes r) with
        | [] => RequestV0.exec nil_value r1 [RequestV0.EPull; RequestV0.ETake]
        | _ :: _ => Return r1
        end);
  match answers r2 (RequestV0.pipes r) with
  | ans :: _ =>
      Return ((valueAsk.value ans, valueAsk.err ans), valueAsk.index ans, r2)
  | [] => Blocked
  end.

(** The [client] struct and its goroutine: [values_closed] and
    [toggle_closed] record the [close] of the two channels. *)
Record client : Type := {
  id : nat;
  index : Z;
  err : option Err;
  values_closed : bool;
  toggle_closed : bool
}.

(** [r.newClientMaterializer()] *)
Definition newClientMaterializer (id : nat) : client :=
  {| id := id; index := 0; err := None;
     values_closed := false; toggle_closed := false |}.

(** The [default] arm of the client's goroutine, up to the moment its value
    is read: after an error the channel is closed and then sent on. *)
Definition produce (cl : client) (host : request) (now : Z)
  : result (Value * client * request) :=
  '((val, e), i, host') ← getValue host now (wrap_int (index cl + 1));
  match e with
  | Some e' =>
      (* cl.err = err; close(cl.values); cl.values <- val *)
      Panic "send on closed channel"
  | None =>
      if values_closed cl then Panic "send on closed channel"
      else
        Return (val,
                {| id := id cl; index := i; err := err cl;
                   values_closed := values_closed cl;
                   toggle_closed := toggle_closed cl |},
                host')
  end.

(** [cl.Materialize()]: a closed channel yields the zero value and
    [false]. *)
Definition Materialize (cl : client) (host : request) (now : Z)
  : result ((Value * bool) * client * request) :=
  if values_closed cl then Return ((nil_value, false), cl, host)
  else
    '(val, cl', host') ← produce cl host now;
    Return ((val, true), cl', host').

(** [cl.Close()], [clients] being the set the host keeps: closing a closed
    channel panics. *)
Definition Close (cl : client) (clients : gset nat)
  : result (client * gset nat) :=
  if values_closed cl then Panic "close of closed channel"
  else if toggle_closed cl then Panic "close of closed channel"
  else
    Return ({| id := id cl; index := index cl; err := err cl;
               values_closed := true; toggle_closed := true |},
            clients ∖ {[ id cl ]}).

(** [cl.Error()] *)
Definition Error (cl : client) : option Err := err cl.

End client.

End ClientV0.

(** ** Iterators: the base iterator and the range of integers *)

Module Iterator.

(** The outcome of a call, under a name the field [result] of the base
    iterator does not hide. *)
Abbreviation outcome := result.

(** Two's complement [int64] and [uint64]. *)
Definition wrap64 (z : Z) : Z := (z + 2 ^ 63) mod 2 ^ 64 - 2 ^ 63.
Definition wrapU64 (z : Z) : Z := z mod 2 ^ 64.

Definition MinInt64 : Z := - 2 ^ 63.
Definition MaxInt64 : Z := 2 ^ 63 - 1.

(** [NextUID()] on the counter [nextIteratorID]: the identifier handed out
    and the counter afterwards ([atomic.AddUint64(&nextIteratorID, 1) - 1]). *)
Definition NextUID (nextIteratorID : Z) : Z * Z :=
  let new := wrapU64 (nextIteratorID + 1) in
  (wrapU64 (new - 1), new).

(** The counter after [init]. *)
Definition init_UID : Z := 1.

(** [graph.Type], the two kinds built here. *)
Inductive IterType : Type := All | Null.

(** A [graph.Value]: [nil], a boxed [int64], or a value of another type. *)
Inductive Value : Type :=
| VNil
| VInt64 (v : Z)
| VOther (ty : string).

Module IteratorStats.
Record t : Type := mk {
  ContainsCost : Z;
  NextCost : Z;
  Size : Z;
  Next : Z;
  Contains : Z
}.
Definition zero : t := mk 0 0 0 0 0.
End IteratorStats.

Section iterators.
(** [graph.Tagger] through the methods the iterators call on it. *)
Context {Tagger : Type}.
Variable Tags : Tagger -> list string.
Variable Fixed : Tagger -> gmap string Value.
Variable CopyFrom : Tagger -> Tagger -> Tagger.
Variable zero_tagger : Tagger.

Record Base : Type := {
  uid : Z;
  tags : Tagger;
  result : Value;
  iterType : IterType
}.

(** [NewBase(t)], threading the counter of identifiers. *)
Definition NewBase (next : Z) (t : IterType) : Base * Z :=
  let '(u, next') := NextUID next in
  ({| uid := u; tags := zero_tagger; result := VNil; iterType := t |}, next').

(** [it.TagResults(dst)]: every tag of the iterator is bound to its result,
    then every fixed tag to its own value. *)
Definition TagResults (it : Base) (dst : gmap string Value)
  : gmap string Value :=
  let dst1 := foldl (fun d tag => <[tag := result it]> d) dst (Tags (tags it)) in
  map_fold (fun tag value d => <[tag := value]> d) dst1 (Fixed (tags it)).

(** An All iterator across a range of [int64] values; [at_] is the field
    [at]. *)
Record Int64 : Type := {
  base : Base;
  max : Z;
  min : Z;
  at_ : Z;
  runstats : IteratorStats.t
}.

Definition set_result (v : Value) (b : Base) : Base :=
  {| uid := uid b; tags := tags b; result := v; iterType := iterType b |}.

(** [NewInt64(min, max)] *)
Definition NewInt64 (next : Z) (min max : Z) : Int64 * Z :=
  let '(b, next') := NewBase next All in
  ({| base := b; max := max; min := min; at_ := min;
      runstats := IteratorStats.zero |}, next').

(** [it.Reset()] *)
Definition Reset (it : Int64) : Int64 :=
  {| base := base it; max := max it; min := min it; at_ := min it;
     runstats := runstats it |}.

(** [it.Clone()] *)
Definition Clone (next : Z) (it : Int64) : Int64 * Z :=
  let '(out, next') := NewInt64 next (min it) (max it) in
  ({| base := {| uid := uid (base out);
                 tags := CopyFrom (tags (base out)) (tags (base it));
                 result := result (base out);
                 iterType := iterType (base out) |};
      max := max out; min := min out; at_ := at_ out;
      runstats := runstats out |}, next').

Definition count_Next (s : IteratorStats.t) : IteratorStats.t :=
  IteratorStats.mk (IteratorStats.ContainsCost s) (IteratorStats.NextCost s)
    (IteratorStats.Size s) (wrap64 (IteratorStats.Next s + 1))
    (IteratorStats.Contains s).

Definition count_Contains (s : IteratorStats.t) : IteratorStats.t :=
  IteratorStats.mk (IteratorStats.ContainsCost s) (IteratorStats.NextCost s)
    (IteratorStats.Size s) (IteratorStats.Next s)
    (wrap64 (IteratorStats.Contains s + 1)).

(** [it.Next()]: the logging calls return the flag they are given. *)
Definition Next (it : Int64) : bool * Int64 :=
  let stats := count_Next (runstats it) in
  if at_ it =? -1 then
    (false,
     {| base := base it; max := max it; min := min it; at_ := at_ it;
        runstats := stats |})
  else
    let val := at_ it in
    let at1 := wrap64 (at_ it + 1) in
    (true,
     {| base := set_result (VInt64 val) (base it);
        max := max it; min := min it;
        at_ := (if at1 >? max it then -1 else at1);
        runstats := stats |}).

(** [it.Contains(tsv)]: the type assertion panics on what is not an
    [int64]. *)
Definition Contains (it : Int64) (tsv : Value) : outcome (bool * Int64) :=
  let stats := count_Contains (runstats it) in
  match tsv with
  | VInt64 v =>
      if (min it <=? v) && (v <=? max it) then
        Return (true,
                {| base := set_result (VInt64 v) (base it);
                   max := max it; min := min it; at_ := at_ it;
                   runstats := stats |})
      else
        Return (false,
                {| base := base it; max := max it; min := min it; at_ := at_ it;
                   runstats := stats |})
  | _ => Panic "interface conversion: interface {} is not int64"
  end.

(** [it.Size()] *)
Definition Size (it : Int64) : Z * bool :=
  (wrap64 (wrap64 (max it - min it) + 1), true).

(** [it.Stats()] *)
Definition Stats (it : Int64) : IteratorStats.t :=
  IteratorStats.mk 1 1 (Size it).1
    (IteratorStats.Next (runstats it)) (IteratorStats.Contains (runstats it)).

(** [n] calls of [Next] in a row: the flags returned, and the iterator. *)
Fixpoint Nexts (n : nat) (it : Int64) : list bool * Int64 :=
  match n with
  | O => ([], it)
  | S n' =>
      let '(ok, it1) := Next it in
      let '(oks, it2) := Nexts n' it1 in
      (ok :: oks, it2)
  end.

(** The values handed out by [n] calls of [Next] in a row, in order. *)
Fixpoint values (n : nat) (it : Int64) : list Value :=
  match n with
  | O => []
  | S n' =>
      let '(ok, it1) := Next it in
      if ok then result (base it1) :: values n' it1 else values n' it1
  end.

End iterators.

End Iterator.

(** ** The cache manager of the Cassandra store *)

Module CacheMan.

Section cacheMan.
(** The data of an entry and the response of the database, both
    [interface{}] in the source. *)
Context {Data : Type}.

Record lruEntry : Type := { birth : Z; data : Data }.

(** The LRU cache as [hit] reads it, through [Contains] and [Get]: a key is
    bound to a pointer to an entry, which may be [nil]. *)
Definition lru : Type := gmap string (option lruEntry).

(** What [hit] does with the channel [pipe.out] before closing it: it sends
    a value ([nil] is [None]), sends nothing, or relays the answer of
    [cacheFill] to the request. *)
Inductive outcome : Type :=
| Sends (v : option Data)
| SendsNothing
| Relays (rqst : string).

(** [cm.hit(pipe)] for the request read from [pipe.in], when the clock
    reads [now]. *)
Definition hit (cache : lru) (cacheTimeout now : Z) (rqst : string) : outcome :=
  if String.eqb rqst "" then Sends None
  else
    match cache !! rqst with
    | Some ifce =>
        match ifce with
        | Some val =>
            if CacheStore.Since now (birth val) <? cacheTimeout
            then Sends (Some (data val))
            else SendsNothing
        | None => SendsNothing
        end
    | None => Relays rqst
    end.

(** The locals of [cacheFill]: [running] lists the [miss] goroutines
    launched whose result has not been taken from [flush] yet, and [sent]
    what was sent on the [out] channels of the pipes. *)
Record fill : Type := {
  inFlight : gmap string bool;
  waiting : gmap string (list nat);
  running : list string;
  sent : list (nat * Data)
}.

Definition start : fill :=
  {| inFlight := ∅; waiting := ∅; running := []; sent := [] |}.

(** The [case pipe, ok := <-fillPipes] arm, for the request read from
    [pipe.in]. *)
Definition on_pipe (s : fill) (pipe : nat) (rqst : string) : fill :=
  let w := <[rqst := default [] (waiting s !! rqst) ++ [pipe]]> (waiting s) in
  if default false (inFlight s !! rqst) then
    {| inFlight := inFlight s; waiting := w;
       running := running s; sent := sent s |}
  else
    {| inFlight := <[rqst := true]> (inFlight s); waiting := w;
       running := running s ++ [rqst]; sent := sent s |}.

(** Taking one launched [miss] off the list. *)
Fixpoint remove_first (rqst : string) (l : list string) : list string :=
  match l with
  | [] => []
  | x :: rest => if String.eqb x rqst then rest else x :: remove_first rqst rest
  end.

(** The [case f := <-flush] arm. *)
Definition on_flush (s : fill) (rqst : string) (resp : Data) : fill :=
  {| inFlight := delete rqst (inFlight s);
     waiting := delete rqst (waiting s);
     running := remove_first rqst (running s);
     sent := sent s ++
             ((fun pipe => (pipe, resp)) <$> default [] (waiting s !! rqst)) |}.

(** A pipe arrives with its request, or the [miss] launched for a request
    delivers its response. *)
Inductive event : Type :=
| EPipe (pipe : nat) (rqst : string)
| EFlush (rqst : string) (resp : Data).

(** One event; a response nobody is computing cannot arrive. *)
Definition step (s : fill) (e : event) : fill :=
  match e with
  | EPipe pipe rqst => on_pipe s pipe rqst
  | EFlush rqst resp =>
      if bool_decide (rqst ∈ running s) then on_flush s rqst resp else s
  end.

Definition exec (s : fill) (evs : list event) : fill := foldl step s evs.

(** What [cacheFill] keeps true: the misses under way are for distinct
    requests, and a request has a miss under way exactly when it is marked
    in flight, and exactly when some pipe waits for it. *)
Definition in_flight_once (s : fill) : Prop :=
  NoDup (running s) /\
  forall k : string,
    (default false (inFlight s !! k) = true <-> k ∈ running s) /\
    (is_Some (waiting s !! k) <-> k ∈ running s).

End cacheMan.

Arguments lruEntry : clear implicits.
Arguments lru : clear implicits.
Arguments fill : clear implicits.
Arguments event : clear implicits.

End CacheMan.

(** ** Vocabulary of the further properties *)

Module Discipline.
Import Request.

Section discipline.
Context {Value Err M : Type} `{Materializer Value Err M}.

(** Every channel made so far either waits for its answer or has been sent
    exactly one. *)
Definition one_answer_each (r : request Value Err M) : Prop :=
  (sent r).*1 ++ waiting r ≡ₚ seq 0 (pipes r).

(** Nobody waits and no pull goroutine is alive. *)
Definition idle (r : request Value Err M) : Prop :=
  waiting r = [] /\ spawned r = 0%nat /\ ready r = [].

(** The backend has ended without error and stays so: [Materialize]
    returns [val] and [false] and leaves it as it is, and [Error] is
    [nil]. *)
Definition exhausted (db : M) (val : Value) : Prop :=
  Materialize db = ((val, false), db) /\ Error (Err := Err) db = None.

End discipline.

(** A request with three values in its view and nothing in flight. *)
Definition viewed_request : request nat string Vocabulary.script :=
  {| view := [10; 20; 30]%nat; dbStream := Vocabulary.Script [] None;
     streams := ∅; err := None;
     waiting := []; spawned := 0; ready := [];
     pipes := 0; sent := []; calls := 0; taken := 0 |}.

End Discipline.

Module StreamRuns.
Import Request.

Section runs.
Context {Value Err M : Type} `{Materializer Value Err M}.
Variable nil_value : Value.

(** What happens to a stream, one after the other: the goroutine takes a
    turn of its loop, or the consumer calls [st.Materialize()]. *)
Inductive action : Type :=
| Turn
| Read.

(** The calls of [Materialize] in a schedule. *)
Fixpoint reads (sch : list action) : nat :=
  match sch with
  | [] => 0
  | Turn :: sch' => reads sch'
  | Read :: sch' => S (reads sch')
  end.

(** A schedule run on a stream and its host: what the calls of
    [Materialize] returned, in order, the stream and the host. *)
Fixpoint run (sch : list action) (st : Stream.stream (Value := Value) (Err := Err))
  (host : request Value Err M)
  : result (list (Value * bool) * Stream.stream (Value := Value) (Err := Err)
            * request Value Err M) :=
  match sch with
  | [] => Return ([], st, host)
  | Turn :: sch' =>
      '(st1, host1) ← Stream.process nil_value st host;
      run sch' st1 host1
  | Read :: sch' =>
      '(a, st1, host1) ← Stream.Materialize nil_value st host;
      '(l, st2, host2) ← run sch' st1 host1;
      Return (a :: l, st2, host2)
  end.

End runs.

End StreamRuns.

(** * Properties *)

(** ** The size string *)

Section size_facts.
Import Config CacheStore Vocabulary.

Ltac by_cases Hc :=
  apply bool_decide_eq_true in Hc;
  repeat (apply elem_of_cons in Hc as [-> | Hc]; [reflexivity |]);
  by apply elem_of_nil in Hc.


Lemma dot_not_digit c : is_dot c = true -> is_digit c = false.
Proof. unfold is_dot. intros Hc. apply bool_decide_eq_true in Hc. by subst. Qed.
Lemma space_not_digit c : is_space c = true -> is_digit c = false.
Proof. unfold is_space. intros Hc. apply bool_decide_eq_true in Hc. by subst. Qed.
Lemma space_not_dot c : is_space c = true -> is_dot c = false.
Proof. unfold is_space. intros Hc. apply bool_decide_eq_true in Hc. by subst. Qed.

Lemma unit_not_digit c : is_unit c = true -> is_digit c = false.
Proof. unfold is_unit. intros Hc. by_cases Hc. Qed.
Lemma unit_not_dot c : is_unit c = true -> is_dot c = false.
Proof. unfold is_unit. intros Hc. by_cases Hc. Qed.
Lemma unit_not_space c : is_unit c = true -> is_space c = false.
Proof. unfold is_unit. intros Hc. by_cases Hc. Qed.
Lemma b_not_digit c : is_b c = true -> is_digit c = false.
Proof. unfold is_b. intros Hc. by_cases Hc. Qed.
Lemma b_not_dot c : is_b c = true -> is_dot c = false.
Proof. unfold is_b. intros Hc. by_cases Hc. Qed.
Lemma b_not_space c : is_b c = true -> is_space c = false.
Proof. unfold is_b. intros Hc. by_cases Hc. Qed.
Lemma b_not_unit c : is_b c = true -> is_unit c = false.
Proof. unfold is_b. intros Hc. by_cases Hc. Qed.

Lemma matches_class_inv p s :
  matches (Class p) s <-> exists c, s = [c] /\ p c = true.
Proof.
  split.
  - inversion 1; subst; eauto.
  - intros (c & -> & Hc). by constructor.
Qed.

Lemma matches_opt_inv r s :
  matches (Opt r) s <-> s = [] \/ matches r s.
Proof.
  split.
  - inversion 1; subst; eauto.
  - intros [-> | Hm]; by constructor.
Qed.

Lemma matches_cat_inv r1 r2 s :
  matches (Cat r1 r2) s <->
  exists s1 s2, s = s1 ++ s2 /\ matches r1 s1 /\ matches r2 s2.
Proof.
  split.
  - inversion 1; subst; eauto.
  - intros (s1 & s2 & -> & H1 & H2). by constructor.
Qed.

Lemma matches_star_class p s :
  matches (Star (Class p)) s <-> forallb p s = true.
Proof.
  split.
  - intros Hm. remember (Star (Class p)) as r eqn:Hr.
    induction Hm as [| | | | | r s1 s2 Hm1 _ Hm2 IH]; try discriminate; [done |].
    injection Hr as ->. apply matches_class_inv in Hm1 as (c & -> & Hc).
    simpl. rewrite Hc. by apply IH.
  - induction s as [| c s IH]; simpl; [constructor |].
    intros [Hc Hs]%andb_prop.
    apply (matches_star_cons _ [c] s); [by constructor | by apply IH].
Qed.

Lemma digits_spec s :
  s = (digits s).1 ++ (digits s).2 /\
  forallb is_digit (digits s).1 = true /\
  starts is_digit (digits s).2 = false.
Proof.
  induction s as [| c s (IH1 & IH2 & IH3)]; simpl; [done |].
  destruct (is_digit c) eqn:Hc.
  - destruct (digits s) as [ds tl]; simpl in *. rewrite Hc. by subst.
  - simpl. by rewrite Hc.
Qed.

Lemma digits_app ds rest :
  forallb is_digit ds = true -> starts is_digit rest = false ->
  digits (ds ++ rest) = (ds, rest).
Proof.
  intros Hds Hrest. induction ds as [| c ds IH]; simpl in *.
  - destruct rest as [| c rest]; [done |]. simpl in *. by rewrite Hrest.
  - apply andb_prop in Hds as [-> Hds]. by rewrite IH.
Qed.

Lemma starts_app p l1 l2 :
  starts p l1 = false -> starts p l2 = false -> starts p (l1 ++ l2) = false.
Proof. by destruct l1. Qed.

Lemma fraction_spec s :
  s = (fraction s).1 ++ (fraction s).2 /\
  matches (Opt (Cat (Class is_dot) (Star (Class is_digit)))) (fraction s).1.
Proof.
  destruct s as [| c s]; simpl; [split; [done | constructor] |].
  destruct (is_dot c) eqn:Hc; [| split; [done | constructor]].
  pose proof (digits_spec s) as (E & D & _).
  destruct (digits s) as [ds tl]; simpl in *.
  split; [by rewrite E at 1 |].
  apply matches_opt_some, (matches_cat _ _ [c] ds);
    [by constructor | by apply matches_star_class].
Qed.

Lemma space_spec s :
  exists sp, s = sp ++ space s /\ matches (Opt (Class is_space)) sp.
Proof.
  destruct s as [| c s]; simpl; [exists []; split; [done | constructor] |].
  destruct (is_space c) eqn:Hc.
  - exists [c]. split; [done |]. by apply matches_opt_some, matches_class.
  - exists []. split; [done | constructor].
Qed.

Lemma unit_letter_spec s :
  s = (unit_letter s).1 ++ (unit_letter s).2 /\
  matches sizexp_unit (unit_letter s).1.
Proof.
  destruct s as [| c s]; simpl; [split; [done | constructor] |].
  destruct (is_unit c) eqn:Hc; simpl.
  - split; [done |]. by apply matches_opt_some, matches_class.
  - split; [done | constructor].
Qed.

Lemma b_letter_spec s :
  exists b, s = b ++ b_letter s /\ matches sizexp_b b.
Proof.
  destruct s as [| c s]; simpl; [exists []; split; [done | constructor] |].
  destruct (is_b c) eqn:Hc.
  - exists [c]. split; [done |]. by apply matches_opt_some, matches_class.
  - exists []. split; [done | constructor].
Qed.

(** What the matcher accepts matches the pattern. *)
Lemma submatch_sound s u : submatch s = Some u -> sizexp_matches s u.
Proof.
  unfold submatch. intros Hs.
  pose proof (digits_spec s) as (E1 & D1 & _).
  destruct (digits s) as [d1 s1]; simpl in *.
  pose proof (fraction_spec s1) as (E2 & M2).
  destruct (fraction s1) as [d2 s2]; simpl in *.
  destruct (space_spec s2) as (sp & E3 & M3).
  pose proof (unit_letter_spec (space s2)) as (E4 & M4).
  destruct (unit_letter (space s2)) as [u' s4]; simpl in *.
  destruct (b_letter_spec s4) as (b & E5 & M5).
  destruct (b_letter s4); [| done]. injection Hs as <-.
  exists (d1 ++ d2 ++ sp), b. split.
  - rewrite E1, E2, E3, E4, E5, app_nil_r. by rewrite <- !app_assoc.
  - split; [| done].
    apply matches_cat; [by apply matches_star_class |].
    by apply matches_cat.
Qed.

Lemma starts_opt_class (p q : ascii -> bool) l :
  matches (Opt (Class q)) l ->
  (forall c, q c = true -> p c = false) ->
  starts p l = false.
Proof.
  intros [-> | (c & -> & Hc)%matches_class_inv]%matches_opt_inv Hpq;
    [done | by apply Hpq].
Qed.

Lemma starts_fraction (p : ascii -> bool) r l :
  matches (Opt (Cat (Class is_dot) r)) l ->
  (forall c, is_dot c = true -> p c = false) ->
  starts p l = false.
Proof.
  intros [-> | (s1 & s2 & -> & (c & -> & Hc)%matches_class_inv & _)%matches_cat_inv]%matches_opt_inv
    Hpq; [done | by apply Hpq].
Qed.

Lemma fraction_app fr rest :
  matches (Opt (Cat (Class is_dot) (Star (Class is_digit)))) fr ->
  starts is_digit rest = false -> starts is_dot rest = false ->
  fraction (fr ++ rest) = (fr, rest).
Proof.
  intros [-> | (s1 & s2 & -> & (c & -> & Hc)%matches_class_inv & Hds)%matches_cat_inv]%matches_opt_inv
    Hdig Hdot.
  - destruct rest as [| c rest]; [done |].
    cbn [app fraction starts] in *. by rewrite Hdot.
  - cbn [app fraction]. rewrite Hc, digits_app;
      [done | by apply matches_star_class | done].
Qed.

Lemma space_app sp rest :
  matches (Opt (Class is_space)) sp -> starts is_space rest = false ->
  space (sp ++ rest) = rest.
Proof.
  intros [-> | (c & -> & Hc)%matches_class_inv]%matches_opt_inv Hrest.
  - destruct rest as [| c rest]; [done |].
    cbn [app space starts] in *. by rewrite Hrest.
  - cbn [app space]. by rewrite Hc.
Qed.

Lemma unit_letter_app u rest :
  matches sizexp_unit u -> starts is_unit rest = false ->
  unit_letter (u ++ rest) = (u, rest).
Proof.
  intros [-> | (c & -> & Hc)%matches_class_inv]%matches_opt_inv Hrest.
  - destruct rest as [| c rest]; [done |].
    cbn [app unit_letter starts] in *. by rewrite Hrest.
  - cbn [app unit_letter]. by rewrite Hc.
Qed.

Lemma b_letter_all b : matches sizexp_b b -> b_letter b = [].
Proof.
  intros [-> | (c & -> & Hc)%matches_class_inv]%matches_opt_inv;
    cbn [b_letter]; [done | by rewrite Hc].
Qed.

(** What matches the pattern is accepted, with the same capture. *)
Lemma submatch_complete s u : sizexp_matches s u -> submatch s = Some u.
Proof.
  intros (pre & b & -> & Hpre & Hu & Hb).
  apply matches_cat_inv in Hpre as (ds & rest & -> & Hds & Hrest).
  apply matches_cat_inv in Hrest as (fr & sp & -> & Hfr & Hsp).
  apply matches_star_class in Hds.
  assert (Hb0 : forall p, (forall c, is_b c = true -> p c = false) ->
                          starts p b = false).
  { intros p Hp. by apply (starts_opt_class p is_b). }
  assert (Hu0 : forall p, (forall c, is_unit c = true -> p c = false) ->
                          (forall c, is_b c = true -> p c = false) ->
                          starts p (u ++ b) = false).
  { intros p Hp1 Hp2. apply starts_app; [| by apply Hb0].
    by apply (starts_opt_class p is_unit). }
  assert (Hsp0 : forall p, (forall c, is_space c = true -> p c = false) ->
                           (forall c, is_unit c = true -> p c = false) ->
                           (forall c, is_b c = true -> p c = false) ->
                           starts p (sp ++ u ++ b) = false).
  { intros p Hp1 Hp2 Hp3. apply starts_app; [| by apply Hu0].
    by apply (starts_opt_class p is_space). }
  unfold submatch. rewrite <- !app_assoc.
  rewrite digits_app; [| done |].
  2:{ apply starts_app;
        [apply (starts_fraction _ _ _ Hfr), dot_not_digit |
         apply Hsp0; auto using space_not_digit, unit_not_digit, b_not_digit]. }
  rewrite fraction_app; [| done | |].
  2:{ apply Hsp0; auto using space_not_digit, unit_not_digit, b_not_digit. }
  2:{ apply Hsp0; auto using space_not_dot, unit_not_dot, b_not_dot. }
  rewrite space_app; [| done |].
  2:{ apply Hu0; auto using unit_not_space, b_not_space. }
  rewrite unit_letter_app; [| done |].
  2:{ apply Hb0; auto using b_not_unit. }
  by rewrite b_letter_all.
Qed.

(** [sizexp.FindStringSubmatch] against the pattern: the submatches are
    those of the one way the string matches, and there are none exactly
    when it does not match. *)
Lemma FindStringSubmatch_matches (sz : string) (u : list ascii) :
  FindStringSubmatch sz = [sz; string_of_list_ascii u] <->
  sizexp_matches (list_ascii_of_string sz) u.
Proof.
  unfold FindStringSubmatch. split.
  - destruct (submatch (list_ascii_of_string sz)) as [u' |] eqn:Hs; [| done].
    intros [= Hu]. apply submatch_sound.
    rewrite Hs. f_equal.
    by rewrite <- (list_ascii_of_string_of_list_ascii u'), Hu,
      list_ascii_of_string_of_list_ascii.
  - intros Hm. by rewrite (submatch_complete _ _ Hm).
Qed.

Lemma FindStringSubmatch_none (sz : string) :
  FindStringSubmatch sz = [] <->
  forall u, ~ sizexp_matches (list_ascii_of_string sz) u.
Proof.
  unfold FindStringSubmatch. split.
  - intros Hn u Hm. by rewrite (submatch_complete _ _ Hm) in Hn.
  - intros Hn. destruct (submatch (list_ascii_of_string sz)) as [u |] eqn:Hs;
      [| done].
    destruct (Hn u). by apply submatch_sound.
Qed.

(** The submatches of [sizexp]: none, or the input followed by a unit that
    is empty or one unit letter. *)
Lemma FindStringSubmatch_cases (sz : string) :
  FindStringSubmatch sz = [] \/
  FindStringSubmatch sz = [sz; ""%string] \/
  exists c, is_unit c = true /\ FindStringSubmatch sz = [sz; String c ""].
Proof.
  unfold FindStringSubmatch, submatch.
  destruct (digits (list_ascii_of_string sz)) as [d1 s1].
  destruct (fraction s1) as [d2 s2].
  unfold unit_letter.
  destruct (space s2) as [| c s3]; simpl.
  - right; left; reflexivity.
  - destruct (is_unit c) eqn:Hu.
    + destruct (b_letter s3); [| by left].
      right; right. exists c. split; [done | reflexivity].
    + destruct (b_letter (c :: s3)); [| by left].
      right; left; reflexivity.
Qed.

(** Whatever [ParseFloat] does, an error comes with the count 0. *)
Lemma parseSizeBytes_error_zero `{Float64} (sz : string) (n : Z) (e : error) :
  parseSizeBytes sz = Return (n, Some e) -> n = 0.
Proof.
  unfold parseSizeBytes.
  destruct (FindStringSubmatch_cases sz) as [-> | [-> | (c & Hc & ->)]]; simpl.
  - by intros [= <- _].
  - destruct (ParseFloat "") as [b [e' |]]; simpl; [by intros [= <- _] | done].
  - destruct (ParseFloat (String c "")) as [b [e' |]]; simpl;
      [by intros [= <- _] | done].
Qed.

Context `{Float64} `{!ParseFloatSyntax}.

(** [ParseFloat] is handed the unit, never the number: every call of
    [parseSizeBytes] returns an error. *)
Lemma parseSizeBytes_fails (sz : string) :
  exists e, parseSizeBytes sz = Return (0, Some e).
Proof.
  unfold parseSizeBytes.
  destruct (FindStringSubmatch_cases sz) as [-> | [-> | (c & Hc & ->)]]; simpl.
  - eauto.
  - pose proof ParseFloat_empty as He.
    destruct (ParseFloat "") as [b e]; simpl in He; subst e. eauto.
  - pose proof (ParseFloat_letter c (unit_not_digit c Hc)) as He.
    destruct (ParseFloat (String c "")) as [b e]; simpl in He; subst e. eauto.
Qed.

Lemma parseSizeBytes_unit (sz : string) (u : string) :
  FindStringSubmatch sz = [sz; u] ->
  parseSizeBytes sz = Return (0, Some (ErrNumSyntax "ParseFloat" u)).
Proof.
  intros Hm. unfold parseSizeBytes.
  destruct (FindStringSubmatch_cases sz) as [E | [E | (c & Hc & E)]];
    rewrite E in Hm; simplify_eq; rewrite E; simpl.
  - pose proof ParseFloat_empty as He.
    destruct (ParseFloat "") as [b e]; simpl in He; by subst e.
  - pose proof (ParseFloat_letter c (unit_not_digit c Hc)) as He.
    destruct (ParseFloat (String c "")) as [b e]; simpl in He; by subst e.
Qed.

Context {Value Stream : Type}.
Implicit Type c : Cache Value Stream.

(** A size string that matches [sizexp] is refused all the same. *)
Lemma Size_string_refused c (sz : string) :
  exists e, Size (I_string sz) c = Return (c, Some e).
Proof.
  destruct (parseSizeBytes_fails sz) as [e He].
  exists e. unfold Size. by rewrite He.
Qed.

(** [New] cannot build a cache: its own default size does not parse. *)
Lemma New_panics (opts : list (CacheOption (Value := Value) (Stream := Stream))) :
  New opts = Panic "parseSizeBytes returned error on initialization".
Proof.
  unfold New. destruct (parseSizeBytes_fails "1GB") as [e ->]. reflexivity.
Qed.

(** The fuzzing entry point never trips its own checks. *)
Lemma Fuzz_returns (input : string) :
  Fuzz (Value := Value) (Stream := Stream) input = Return 0.
Proof.
  unfold Fuzz. destruct (Size_string_refused zero_cache input) as [e ->].
  reflexivity.
Qed.

End size_facts.

Section size_claims.
Import Config CacheStore Vocabulary.

Lemma exact_decimal_syntax : @ParseFloatSyntax exact_decimal.
Proof.
  split; [reflexivity |].
  intros c Hc. simpl. unfold parse_decimal. simpl. rewrite Hc.
  destruct (decide (c = "."%char)) as [-> | Hne]; [reflexivity |].
  destruct c as [[] [] [] [] [] [] [] []]; try reflexivity; by destruct Hne.
Qed.

(** C6, as the code has it: the four spellings of one gibibyte are all
    refused.  [Size] returns the syntax error [ParseFloat] raises on the
    unit letter (or on the empty unit) and the byte budget stays what it
    was, where the claim has each of them set the budget to 1073741824. *)
Theorem Size_one_gibibyte_refused :
  forall (F : Float64) (L : @ParseFloatSyntax F) (Value Stream : Type)
         (c : Cache Value Stream),
    Size (I_string "1GB") c
      = Return (c, Some (ErrNumSyntax "ParseFloat" "G")) /\
    Size (I_string "1024MB") c
      = Return (c, Some (ErrNumSyntax "ParseFloat" "M")) /\
    Size (I_string "1048576KB") c
      = Return (c, Some (ErrNumSyntax "ParseFloat" "K")) /\
    Size (I_string "1073741824") c
      = Return (c, Some (ErrNumSyntax "ParseFloat" "")).
Proof.
  intros F L Value Stream c. unfold Size.
  rewrite (parseSizeBytes_unit "1GB" "G") by reflexivity.
  rewrite (parseSizeBytes_unit "1024MB" "M") by reflexivity.
  rewrite (parseSizeBytes_unit "1048576KB" "K") by reflexivity.
  rewrite (parseSizeBytes_unit "1073741824" "") by reflexivity.
  done.
Qed.

Lemma Size_one_gibibyte_refused_witness :
  @Size unit unit exact_decimal (I_string "1GB") zero_cache
    = Return (zero_cache, Some (ErrNumSyntax "ParseFloat" "G")) /\
  @Size unit unit exact_decimal (I_string "1024MB") zero_cache
    = Return (zero_cache, Some (ErrNumSyntax "ParseFloat" "M")) /\
  @Size unit unit exact_decimal (I_string "1048576KB") zero_cache
    = Return (zero_cache, Some (ErrNumSyntax "ParseFloat" "K")) /\
  @Size unit unit exact_decimal (I_string "1073741824") zero_cache
    = Return (zero_cache, Some (ErrNumSyntax "ParseFloat" "")).
Proof.
  exact (Size_one_gibibyte_refused exact_decimal exact_decimal_syntax
           unit unit zero_cache).
Defined.

(** C7: applied to a malformed size string, or to a value that is neither
    an [int64] nor a [string], the [Size] option returns a non-nil error and
    hands the cache back untouched, its byte budget included.  Malformed
    are the strings the pattern does not match, refused at the first
    return of [parseSizeBytes], and those it matches though they hold no
    number, refused at the return that follows [ParseFloat]. *)
Theorem Size_malformed_rejected :
  forall (F : Float64) (L : @ParseFloatSyntax F) (Value Stream : Type)
         (c : Cache Value Stream) (v : ifce),
    malformed v ->
    exists e : error, Size v c = Return (c, Some e).
Proof.
  intros F L Value Stream c [n | sz | ty] Hv; simpl in Hv.
  - destruct Hv.
  - apply Size_string_refused.
  - by exists (ErrSizeType ty).
Qed.

Lemma Size_malformed_rejected_witness :
  malformed (I_string "kb") /\
  exists e : error,
    @Size unit unit exact_decimal (I_string "kb") cache0
      = Return (cache0, Some e).
Proof.
  assert (Hkb : malformed (I_string "kb")).
  { intros (num & rest & Heq & _ & Hdigit & _). simpl in Heq.
    destruct num as [| c1 [| c2 [| c3 num]]]; simpl in Heq.
    - inversion Hdigit.
    - injection Heq as <- _. inversion Hdigit as [? ? Hd | ? ? Hd]; subst;
        [discriminate Hd | inversion Hd].
    - injection Heq as <- <- _.
      inversion Hdigit as [? ? Hd | ? ? Hd]; subst; [discriminate Hd |].
      inversion Hd as [? ? Hd' | ? ? Hd']; subst;
        [discriminate Hd' | inversion Hd'].
    - discriminate Heq. }
  split; [exact Hkb |].
  exact (Size_malformed_rejected exact_decimal exact_decimal_syntax unit unit
           cache0 (I_string "kb") Hkb).
Defined.

(** C9: [parseSizeBytes] returns on every input; whenever its error is
    non-nil the byte count beside it is 0, and the byte count is never
    negative. *)
Theorem parseSizeBytes_error_zero_nonneg :
  forall (F : Float64) (L : @ParseFloatSyntax F) (sz : string),
    exists (n : Z) (err : option error),
      parseSizeBytes sz = Return (n, err) /\
      (err <> None -> n = 0) /\
      0 <= n.
Proof.
  intros F L sz. destruct (parseSizeBytes_fails sz) as [e He].
  exists 0, (Some e). split; [exact He |]. split; [done | lia].
Qed.

Lemma parseSizeBytes_error_zero_nonneg_witness :
  exists (n : Z) (err : option error),
    @parseSizeBytes exact_decimal "12 kB" = Return (n, err) /\
    (err <> None -> n = 0) /\
    0 <= n.
Proof.
  exact (parseSizeBytes_error_zero_nonneg exact_decimal exact_decimal_syntax
           "12 kB").
Defined.

End size_claims.

(** ** Looking a query up in the cache *)

Section lookup_facts.
Import CacheStore Vocabulary.
Context {Value Stream : Type}.
Implicit Type c : Cache Value Stream.
Implicit Type cr : cachedRequest Value Stream.

Lemma Since_nonneg (now t : Z) : t <= now -> 0 <= Since now t.
Proof. unfold Since, Sub, minDuration, maxDuration. lia. Qed.

(** The hit, exactly: the key is in [stable] and the entry is younger than
    the timeout. *)
Lemma Request_hit_iff c (now : Z) (query : string) (immutable : bool) cr :
  Request c now query immutable = Hit cr <->
  stable c !! query = Some cr /\ Since now (birth cr) < timeout c.
Proof.
  unfold Request.
  destruct (stable c !! query) as [cr' |]; [| split; [done | by intros [? _]]].
  destruct (Z.ltb_spec (Since now (birth cr')) (timeout c)) as [Hlt | Hge].
  - split; [intros [= <-]; done | intros [[= ->] _]; done].
  - split; [done | intros [[= ->] Hlt]; lia].
Qed.

(** The flag plays no part. *)
Lemma Request_ignores_immutable c (now : Z) (query : string) (i1 i2 : bool) :
  Request c now query i1 = Request c now query i2.
Proof. reflexivity. Qed.

End lookup_facts.

Section lookup_claims.
Import CacheStore Vocabulary.

(** C1, as the code has it: a request with [immutable = true] for a key of
    the stable table is a miss once the entry is as old as the timeout; the
    flag is not consulted, where the claim has such a request hit however
    old the entry. *)
Theorem Request_immutable_stale_misses :
  forall (Value Stream : Type) (c : Cache Value Stream) (now : Z)
         (query : string) (cr : cachedRequest Value Stream),
    stable c !! query = Some cr ->
    timeout c <= Since now (birth cr) ->
    Request c now query true = Miss.
Proof.
  intros Value Stream c now query cr Hq Hold. unfold Request. rewrite Hq.
  destruct (Z.ltb_spec (Since now (birth cr)) (timeout c)); [lia | done].
Qed.

Lemma Request_immutable_stale_misses_witness :
  stable cache0 !! "q"%string = Some entry0 /\
  timeout cache0 <= Since (10 * Minute) (birth entry0) /\
  Request cache0 (10 * Minute) "q" true = Miss.
Proof.
  split; [reflexivity |]. split; [vm_compute; discriminate |].
  apply (Request_immutable_stale_misses unit unit cache0 (10 * Minute) "q"
           entry0).
  - reflexivity.
  - vm_compute; discriminate.
Defined.

(** C5, as the code has it: after [Timeout(0)] every request for a key of
    the stable table is a miss, at the very instant of the entry's birth and
    ever after; the age of an entry is never below zero.  The claim has
    every such request hit. *)
Theorem Request_timeout_zero_misses :
  forall (Value Stream : Type) (c : Cache Value Stream) (now : Z)
         (query : string) (immutable : bool) (cr : cachedRequest Value Stream),
    stable c !! query = Some cr ->
    birth cr <= now ->
    exists c' : Cache Value Stream,
      Return (c', None) = Timeout 0 c /\
      stable c' = stable c /\
      Request c' now query immutable = Miss.
Proof.
  intros Value Stream c now query immutable cr Hq Hborn.
  exists (set_timeout 0 c). split; [reflexivity |]. split; [reflexivity |].
  unfold Request. simpl. rewrite Hq.
  pose proof (Since_nonneg now (birth cr) Hborn).
  destruct (Z.ltb_spec (Since now (birth cr)) 0); [lia | done].
Qed.

Lemma Request_timeout_zero_misses_witness :
  exists c' : Cache unit unit,
    Return (c', None) = Timeout 0 cache0 /\
    stable c' = stable cache0 /\
    Request c' 0 "q" false = Miss.
Proof.
  apply (Request_timeout_zero_misses unit unit cache0 0 "q" false entry0).
  - reflexivity.
  - simpl; lia.
Defined.

End lookup_claims.

(** ** The request and its pulls *)

Section request_facts.
Import Request.
Context {Value Err M : Type} `{Materializer Value Err M}.
Variable nil_value : Value.
Implicit Type r : request Value Err M.

Lemma getValue_ask_index (index : Z) :
  valueAsk.index (getValue_ask (Err := Err) nil_value index) = Z.max 0 index.
Proof. unfold getValue_ask; simpl. destruct (Z.ltb_spec index 0); lia. Qed.

(** An index that is not negative never takes [r.view[i]] out of range. *)
Lemma view_at_in_range r (i : Z) :
  0 <= i < Z.of_nat (length (view r)) ->
  exists v, view_at r i = Return v /\ view r !! Z.to_nat i = Some v.
Proof.
  intros [Hlo Hhi]. unfold view_at, index_slice.
  destruct (Z.ltb_spec i 0); [lia |].
  destruct (lookup_lt_is_Some_2 (view r) (Z.to_nat i)) as [v Hv]; [lia |].
  exists v. by rewrite Hv.
Qed.

(** An ask at a materialized position is answered from the view. *)
Lemma on_ask_hit r (out : ansCh) (ask : valueAsk.t Value Err) :
  0 <= valueAsk.index ask < Z.of_nat (length (view r)) ->
  exists v,
    view r !! Z.to_nat (valueAsk.index ask) = Some v /\
    on_ask r out ask =
      Return {| view := view r; dbStream := dbStream r; streams := streams r;
                err := err r; waiting := waiting r;
                spawned := spawned r; ready := ready r; pipes := pipes r;
                sent := sent r ++
                        [(out, valueAsk.mk (valueAsk.index ask) v (valueAsk.err ask))];
                calls := calls r; taken := taken r |}.
Proof.
  intros Hi. destruct (view_at_in_range r _ Hi) as (v & Hv & Hl).
  exists v. split; [exact Hl |]. unfold on_ask.
  destruct (Z.ltb_spec (valueAsk.index ask) (Z.of_nat (length (view r))));
    [| lia].
  by rewrite Hv.
Qed.

(** An ask past the view joins the waiters; a pull goroutine is launched
    when it is the first of them. *)
Lemma on_ask_miss r (out : ansCh) (ask : valueAsk.t Value Err) :
  Z.of_nat (length (view r)) <= valueAsk.index ask ->
  on_ask r out ask =
    Return {| view := view r; dbStream := dbStream r; streams := streams r;
              err := err r;
              waiting := waiting r ++ [out];
              spawned := (if bool_decide (waiting r = []) then S (spawned r)
                          else spawned r);
              ready := ready r; pipes := pipes r; sent := sent r;
              calls := calls r; taken := taken r |}.
Proof.
  intros Hi. unfold on_ask.
  by destruct (Z.ltb_spec (valueAsk.index ask) (Z.of_nat (length (view r))));
    [lia |].
Qed.

Lemma step_ask r (index : Z) :
  step nil_value r (EAsk index) =
    on_ask (askPipes r).2 (pipes r) (getValue_ask nil_value index).
Proof. reflexivity. Qed.





Lemma step_inv r r' (e : event) :
  step nil_value r e = Return r' -> pulls_inv r -> pulls_inv r'.
Proof.
  unfold pulls_inv, outstanding.
  destruct e as [index | |]; [rewrite step_ask | simpl | simpl].
  - set (r1 := (askPipes r).2).
    destruct (Z.ltb_spec (Z.max 0 index) (Z.of_nat (length (view r1))))
      as [Hlt | Hge].
    + destruct (on_ask_hit r1 (pipes r) (getValue_ask nil_value index))
        as (v & _ & ->); [rewrite getValue_ask_index; lia |].
      intros [= <-]; simpl. tauto.
    + rewrite (on_ask_miss r1); [| by rewrite getValue_ask_index].
      intros [= <-]; simpl. intros (Hone & Hw & Hc).
      assert (Hne : waiting r ++ [pipes r] <> []).
      { intros Hnil. by apply app_eq_nil in Hnil as [_ ?]. }
      case_bool_decide as Hwait.
      * pose proof (proj1 Hw Hwait). split; [lia | split; [split; [done | lia] | lia]].
      * assert (spawned r + length (ready r) <> 0)%nat by tauto.
        split; [lia | split; [split; [done | lia] | lia]].
  - destruct (spawned r) as [| n] eqn:Hs.
    + intros [= <-]. rewrite Hs. tauto.
    + intros [= <-]. unfold on_pull.
      destruct (Materialize (dbStream r)) as [[val ok] db]; simpl.
      rewrite Hs, length_app; simpl. intros (Hone & Hw & Hc).
      split; [lia | split; [split; [intros Hnil; apply Hw in Hnil; lia | lia] | lia]].
  - destruct (ready r) as [| val rest] eqn:Hr.
    + intros [= <-]. rewrite Hr. tauto.
    + unfold on_materialized.
      destruct (waiting r) as [| ? [| ? ?]]; [| | done];
        intros [= <-]; simpl; intros (Hone & Hw & Hc); simpl in *;
        (split; [lia | split; [split; [lia | done] | lia]]).
Qed.

Lemma exec_inv (evs : list event) r r' :
  exec nil_value r evs = Return r' -> pulls_inv r -> pulls_inv r'.
Proof.
  revert r. induction evs as [| e evs IH]; intros r; simpl.
  - by intros [= <-].
  - destruct (step nil_value r e) as [r1 | msg |] eqn:Hr1; simpl;
      [| done | done].
    intros Hex Hinv. eapply IH; [exact Hex |]. by eapply step_inv.
Qed.

Lemma newRequest_inv (db : M) :
  pulls_inv (newRequest (Value := Value) (Err := Err) db).
Proof. unfold pulls_inv, outstanding; simpl. split; [lia | split; [tauto | lia]]. Qed.

(** No event touches the view: what a pull brings is sent to the waiters
    and kept nowhere. *)
Lemma step_view r r' (e : event) :
  step nil_value r e = Return r' -> view r' = view r.
Proof.
  destruct e as [index | |]; simpl.
  - unfold on_ask; simpl.
    destruct (_ <? _); [| by intros [= <-]].
    destruct (view_at _ _); simpl; [by intros [= <-] | done | done].
  - destruct (spawned r); [by intros [= <-] |].
    intros [= <-]. unfold on_pull.
    by destruct (Materialize (dbStream r)) as [[val ok] db].
  - destruct (ready r); [by intros [= <-] |]. unfold on_materialized.
    destruct (waiting r) as [| ? [| ? ?]]; [| | done]; by intros [= <-].
Qed.

Lemma exec_view (evs : list event) r r' :
  exec nil_value r evs = Return r' -> view r' = view r.
Proof.
  revert r. induction evs as [| e evs IH]; intros r; simpl.
  - by intros [= <-].
  - destruct (step nil_value r e) as [r1 | msg |] eqn:Hr1; simpl;
      [| done | done].
    intros Hex. rewrite (IH _ Hex). by eapply step_view.
Qed.

Lemma exec_app (evs1 evs2 : list event) r :
  exec nil_value r (evs1 ++ evs2) =
    r' ← exec nil_value r evs1; exec nil_value r' evs2.
Proof.
  revert r. induction evs1 as [| e evs1 IH]; intros r; simpl; [done |].
  destruct (step nil_value r e) as [r1 | msg |]; simpl; [apply IH | done | done].
Qed.

(** One reader on a request at rest whose view is empty: the ask launches a
    pull, the pull calls [Materialize], the take answers the reader, and the
    request is at rest again, its view still empty. *)
Lemma round_at_rest r (index : Z) :
  view r = [] -> waiting r = [] -> outstanding r = 0%nat ->
  exists r',
    exec nil_value r [EAsk index; EPull; ETake] = Return r' /\
    view r' = [] /\ waiting r' = [] /\ outstanding r' = 0%nat /\
    calls r' = S (calls r) /\ taken r' = S (taken r) /\
    pipes r' = S (pipes r) /\
    dbStream r' = (Materialize (dbStream r)).2 /\
    err r' = (if (Materialize (dbStream r)).1.2 then err r
              else Error (Materialize (dbStream r)).2) /\
    sent r' = sent r ++
              [(pipes r, valueAsk.mk 0 (Materialize (dbStream r)).1.1 (err r'))].
Proof.
  intros Hv Hw Hout. unfold outstanding in Hout.
  assert (Hs : spawned r = 0%nat) by lia.
  assert (Hr : ready r = []) by (apply length_zero_iff_nil; lia).
  unfold exec. rewrite step_ask.
  rewrite on_ask_miss
    by (rewrite getValue_ask_index; simpl; rewrite Hv; simpl; lia).
  simpl. rewrite Hw, Hs, Hr, Hv. simpl.
  unfold on_pull; simpl.
  destruct (Materialize (dbStream r)) as [[val ok] db]; simpl.
  eexists; split; [reflexivity |]; simpl.
  unfold outstanding; simpl. by destruct ok.
Qed.

End request_facts.

(** ** The earlier revision keeps the same discipline *)

Section request_v0_facts.
Import Request.
Context {Value Err M : Type} `{Materializer Value Err M}.
Variable nil_value : Value.
Implicit Type r : RequestV0.request Value Err M.

(** In the serving loop an immutable item is a hit at any age. *)
Lemma first_fresh_immutable (timeout now i : Z)
  (it : RequestV0.cacheItem Value) (rest : list (RequestV0.cacheItem Value)) :
  RequestV0.immutable it = true ->
  RequestV0.first_fresh timeout now i (it :: rest)
    = Some (i, RequestV0.value it).
Proof. intros Him. simpl. by rewrite Him. Qed.





End request_v0_facts.

Section request_claims.
Import Request Vocabulary.

(** C2, as the code has it: readers come one after the other, each asking
    for an index and being answered before the next one asks.  Every ask
    goes to the backend, since nothing a pull brings is stored in the view:
    when the last reader has been answered, with no pull outstanding and
    nobody waiting, [Materialize] has been called once for every ask and
    the view is still empty, where the claim has the number of calls never
    exceed the length of the view. *)
Theorem pulls_outrun_view :
  forall (Value Err M : Type) (H : Materializer Value Err M)
         (nil_value : Value) (db : M) (idxs : list Z),
    exists r : request Value Err M,
      exec nil_value (newRequest db) (rounds idxs) = Return r /\
      waiting r = [] /\
      outstanding r = 0%nat /\
      calls r = length idxs /\
      view r = [].
Proof.
  intros Value Err M H nil_value db idxs.
  assert (Hgen : forall r : request Value Err M,
            view r = [] -> waiting r = [] -> outstanding r = 0%nat ->
            exists r',
              exec nil_value r (rounds idxs) = Return r' /\
              waiting r' = [] /\ outstanding r' = 0%nat /\
              calls r' = (calls r + length idxs)%nat /\ view r' = []).
  { induction idxs as [| index idxs IH]; intros r Hv Hw Hout.
    - exists r. simpl. repeat split; [done | done | lia | done].
    - destruct (round_at_rest nil_value r index Hv Hw Hout)
        as (r1 & Hr1 & Hv1 & Hw1 & Hout1 & Hc1 & _).
      destruct (IH r1 Hv1 Hw1 Hout1) as (r' & Hr' & Hw' & Hout' & Hc' & Hv').
      exists r'. split; [| repeat split; [done | done | simpl; lia | done]].
      change (rounds (index :: idxs))
        with ([EAsk index; EPull; ETake] ++ rounds idxs).
      by rewrite exec_app, Hr1. }
  destruct (Hgen (newRequest db)) as (r & Hr & Hw & Hout & Hc & Hv);
    [done | done | done |].
  exists r. by repeat split.
Qed.

(** C3, as the code has it: two streams ask for index 0, the second after
    the first was answered.  The value pulled for the first is not kept (the
    view is still empty at the end), so the second ask goes to the backend
    again and is answered with the next value of the stream: 7 for one
    reader, 8 for the other, where the claim has the pulled value appended
    to the view and both readers receive the same value. *)
Theorem same_index_different_values :
  exists r : request nat string script,
    exec 0%nat (newRequest (Script [7%nat; 8%nat] None))
      [EAsk 0; EPull; ETake; EAsk 0; EPull; ETake] = Return r /\
    view r = [] /\
    calls r = 2%nat /\
    answers r 0%nat = [valueAsk.mk 0 7%nat None] /\
    answers r 1%nat = [valueAsk.mk 0 8%nat None].
Proof.
  eexists. split; [reflexivity |]. vm_compute. done.
Qed.

(** C4, as stated, fails: the backend has failed and the request has
    recorded its error; the next ask past the view calls [Materialize]
    again. *)
Lemma backend_asked_again_after_error :
  ~ (forall (evs : list event) (r r' : request nat string script) (index : Z),
       exec 0%nat (newRequest (Script [] (Some "boom"%string))) evs = Return r ->
       err r <> None ->
       Z.of_nat (length (view r)) <= index ->
       exec 0%nat r [EAsk index; EPull; ETake] = Return r' ->
       calls r' = calls r /\
       forall ans, ans ∈ answers r' (pipes r) -> valueAsk.err ans = err r).
Proof.
  intros Hclaim.
  destruct (round_at_rest 0%nat failed_request 0)
    as (r' & Hr' & _ & _ & _ & Hc & _); [done | done | done |].
  destruct (Hclaim [EAsk 0; EPull; ETake] failed_request r' 0)
    as [Hcalls _]; [reflexivity | done | simpl; lia | exact Hr' |].
  rewrite Hc in Hcalls. lia.
Qed.

(** C4, amended: with an error recorded and no pull in flight, an ask past
    the view launches a pull that calls the backend's [Materialize] once
    more.  The asker is sent the value of that pull together with the error
    the request holds after it: the recorded error when the pull brought a
    value, the backend's [Error()] as read after the pull when it did
    not. *)
Theorem recorded_error_pulls_again :
  forall (Value Err M : Type) (H : Materializer Value Err M)
         (nil_value : Value) (r : request Value Err M) (e : Err) (index : Z),
    err r = Some e ->
    waiting r = [] ->
    outstanding r = 0%nat ->
    Z.of_nat (length (view r)) <= index ->
    exists r' : request Value Err M,
      exec nil_value r [EAsk index; EPull; ETake] = Return r' /\
      calls r' = S (calls r) /\
      dbStream r' = (Materialize (dbStream r)).2 /\
      err r' = (if (Materialize (dbStream r)).1.2 then Some e
                else Error (Materialize (dbStream r)).2) /\
      sent r' = sent r ++
                [(pipes r, valueAsk.mk 0 (Materialize (dbStream r)).1.1 (err r'))] /\
      waiting r' = [] /\
      outstanding r' = 0%nat.
Proof.
  intros Value Err M H nil_value r e index He Hw Hout Hpast.
  unfold outstanding in Hout.
  assert (Hs : spawned r = 0%nat) by lia.
  assert (Hr : ready r = []) by (apply length_zero_iff_nil; lia).
  unfold exec. rewrite step_ask.
  rewrite on_ask_miss by (rewrite getValue_ask_index; simpl; lia).
  simpl. rewrite Hw, Hs, Hr, He. simpl.
  unfold on_pull; simpl.
  destruct (Materialize (dbStream r)) as [[val ok] db]; simpl.
  eexists; split; [reflexivity |]; simpl.
  by destruct ok.
Qed.

Lemma recorded_error_pulls_again_witness :
  let r := failed_request in
  exists r' : request nat string script,
    exec 0%nat r [EAsk 1; EPull; ETake] = Return r' /\
    calls r' = S (calls r) /\
    dbStream r' = (Materialize (dbStream r)).2 /\
    err r' = (if (Materialize (dbStream r)).1.2 then Some "boom"%string
              else Error (Materialize (dbStream r)).2) /\
    sent r' = sent r ++
              [(pipes r, valueAsk.mk 0 (Materialize (dbStream r)).1.1 (err r'))] /\
    waiting r' = [] /\
    outstanding r' = 0%nat.
Proof.
  intros r.
  apply (recorded_error_pulls_again nat string script script_stream 0%nat r
           "boom"%string 1); [reflexivity | reflexivity | reflexivity |].
  simpl. lia.
Defined.


End request_claims.

(** ** Streams *)

Section stream_facts.
Import Request.
Context {Value Err M : Type} `{Materializer Value Err M}.
Variable nil_value : Value.
Implicit Type st : Stream.stream (Value := Value) (Err := Err).
Implicit Type host : request Value Err M.

(** [Close] always leaves the stream closed and returns the error the
    stream held. *)
Lemma Close_closes st host :
  Stream.closed (Stream.Close st host).1.2 = true /\
  (Stream.Close st host).1.1 = Stream.err st /\
  Stream.err (Stream.Close st host).1.2 = Stream.err st.
Proof. unfold Stream.Close. by destruct (Stream.closed st) eqn:Hc. Qed.

(** The first [Close] takes the stream off its host. *)
Lemma Close_removes st host :
  Stream.closed st = false ->
  (Stream.Close st host).2 = removeStream host (Stream.id st).
Proof. unfold Stream.Close. by intros ->. Qed.

End stream_facts.

Section stream_claims.
Import Request.

(** C8: once [Close] has been called on a stream, [Reset] and
    [Materialize] panic, and a further [Close] returns the error the stream
    holds and changes neither the stream nor its host. *)
Theorem closed_stream_usage :
  forall (Value Err M : Type) (H : Materializer Value Err M)
         (nil_value : Value) (st : Stream.stream (Err := Err))
         (host : request Value Err M),
    let st' := (Stream.Close st host).1.2 in
    let host' := (Stream.Close st host).2 in
    Stream.closed st' = true /\
    Stream.Reset st' = Panic "Cannot reset closed stream" /\
    Stream.Materialize nil_value st' host'
      = Panic "Cannot materialize from closed stream" /\
    Stream.Close st' host' = (Stream.err st', st', host') /\
    Stream.Error st' = Stream.err st.
Proof.
  intros Value Err M H nil_value st host st' host'.
  destruct (Close_closes st host) as (Hc & _ & He).
  fold st' in Hc, He.
  unfold Stream.Reset, Stream.Materialize, Stream.Close at 1, Stream.Error.
  rewrite Hc. done.
Qed.

End stream_claims.
(** * Further properties *)

(** ** The size string, the options and [New] *)

Section config_more.
Import Config CacheStore Vocabulary.

(** X1: whatever [strconv.ParseFloat] does, [parseSizeBytes] never returns
    a size without an error: it returns an error, or panics on [m[2]]
    because the pattern has one capturing group only. *)
Theorem parseSizeBytes_never_succeeds :
  forall (F : Float64) (sz : string) (n : Z),
    parseSizeBytes sz <> Return (n, None).
Proof.
  intros F sz n. unfold parseSizeBytes.
  destruct (FindStringSubmatch_cases sz) as [-> | [-> | (c & Hc & ->)]]; simpl.
  - discriminate.
  - destruct (ParseFloat "") as [b [e |]]; simpl; discriminate.
  - destruct (ParseFloat (String c "")) as [b [e |]]; simpl; discriminate.
Qed.

(** X2: [sizexp.FindStringSubmatch] returns the input and the text of the
    unit group exactly when the whole input matches the pattern with that
    text in the group, and the empty slice exactly when the input does not
    match the pattern at all. *)
Theorem FindStringSubmatch_agrees_with_sizexp :
  forall (sz : string),
    (forall u : list ascii,
       FindStringSubmatch sz = [sz; string_of_list_ascii u] <->
       sizexp_matches (list_ascii_of_string sz) u) /\
    (FindStringSubmatch sz = [] <->
     forall u : list ascii, ~ sizexp_matches (list_ascii_of_string sz) u).
Proof.
  intros sz. split.
  - intros u. unfold FindStringSubmatch. split.
    + destruct (submatch (list_ascii_of_string sz)) as [u' |] eqn:Hs; [| done].
      intros [= Hu]. apply submatch_sound. rewrite Hs. f_equal.
      by rewrite <- (list_ascii_of_string_of_list_ascii u'), Hu,
        list_ascii_of_string_of_list_ascii.
    + intros Hm. by rewrite (submatch_complete _ _ Hm).
  - unfold FindStringSubmatch. split.
    + intros Hn u Hm. by rewrite (submatch_complete _ _ Hm) in Hn.
    + intros Hn.
      destruct (submatch (list_ascii_of_string sz)) as [u |] eqn:Hs; [| done].
      destruct (Hn u). by apply submatch_sound.
Qed.

(** X3: the [Size] option refuses every string, well-formed or not: it
    returns a non-nil error and hands the cache back as it received it. *)
Theorem Size_refuses_every_string :
  forall (F : Float64) (L : @ParseFloatSyntax F) (Value Stream : Type)
         (c : Cache Value Stream) (sz : string),
    exists e : error, Size (I_string sz) c = Return (c, Some e).
Proof.
  intros F L Value Stream c sz.
  destruct (parseSizeBytes_fails sz) as [e He].
  exists e. unfold Size. by rewrite He.
Qed.

Lemma Size_refuses_every_string_witness :
  exists e : error,
    @Size unit unit exact_decimal (I_string "512 MB") cache0
      = Return (cache0, Some e).
Proof.
  exact (Size_refuses_every_string exact_decimal exact_decimal_syntax
           unit unit cache0 "512 MB").
Defined.

(** X4: [New] never returns: whatever options it is given, it panics on
    its own default size, before the first option is applied. *)
Theorem New_always_panics :
  forall (F : Float64) (L : @ParseFloatSyntax F) (Value Stream : Type)
         (opts : list (CacheOption (Value := Value) (Stream := Stream))),
    New opts = Panic "parseSizeBytes returned error on initialization".
Proof.
  intros F L Value Stream opts. unfold New.
  destruct (parseSizeBytes_fails "1GB") as [e ->]. reflexivity.
Qed.

Lemma New_always_panics_witness :
  @New unit unit exact_decimal
    [@Size unit unit exact_decimal (I_int64 4096); @Timeout unit unit Minute]
    = Panic "parseSizeBytes returned error on initialization".
Proof.
  exact (New_always_panics exact_decimal exact_decimal_syntax unit unit
           [@Size unit unit exact_decimal (I_int64 4096);
            @Timeout unit unit Minute]).
Defined.

(** X5: the fuzzing entry point returns 0 on every input: neither of its
    two checks on the byte budget ever fires. *)
Theorem Fuzz_never_panics :
  forall (F : Float64) (L : @ParseFloatSyntax F) (Value Stream : Type)
         (input : string),
    Fuzz (Value := Value) (Stream := Stream) input = Return 0.
Proof.
  intros F L Value Stream input. unfold Fuzz.
  destruct (parseSizeBytes_fails input) as [e He].
  unfold Size. rewrite He. reflexivity.
Qed.

Lemma Fuzz_never_panics_witness :
  @Fuzz unit unit exact_decimal "9999999999999999999999PB" = Return 0.
Proof.
  exact (Fuzz_never_panics exact_decimal exact_decimal_syntax unit unit
           "9999999999999999999999PB").
Defined.

(** X6: the loop of [New] over its options composes: applying a list of
    options followed by another is applying the first list and, when it
    ends without error, the second list to the cache it built; an error or
    a panic in the first list is the outcome, and the second list is never
    started. *)
Theorem apply_options_app :
  forall (F : Float64) (Value Stream : Type)
         (opts1 opts2 : list (CacheOption (Value := Value) (Stream := Stream)))
         (c : Cache Value Stream),
    apply_options (opts1 ++ opts2) c =
      match apply_options opts1 c with
      | Return (Some c', None) => apply_options opts2 c'
      | other => other
      end.
Proof.
  intros F Value Stream opts1 opts2. induction opts1 as [| opt opts1 IH];
    intros c; simpl.
  - reflexivity.
  - destruct (opt c) as [[c1 [e |]] | msg |]; simpl; try reflexivity.
    apply IH.
Qed.

End config_more.

(** ** Looking a query up, over time *)

Section lookup_more.
Import CacheStore Vocabulary.

(** X7: [Request] is a hit exactly when the key is in the stable table and
    the entry is strictly younger than the timeout, and then it hands out
    the entry of the table; a key that is missing, and an entry whose age
    equals the timeout, are misses. *)
Theorem Request_hit_exactly :
  forall (Value Stream : Type) (c : Cache Value Stream) (now : Z)
         (query : string) (immutable : bool),
    (forall cr, Request c now query immutable = Hit cr <->
                stable c !! query = Some cr /\
                Since now (birth cr) < timeout c) /\
    (Request c now query immutable = Miss <->
     forall cr, stable c !! query = Some cr ->
                timeout c <= Since now (birth cr)).
Proof.
  intros Value Stream c now query immutable. unfold Request.
  destruct (stable c !! query) as [cr' |].
  - destruct (Z.ltb_spec (Since now (birth cr')) (timeout c)) as [Hlt | Hge].
    + split.
      * intros cr. split; [intros [= <-]; done | intros [[= ->] _]; done].
      * split; [done | intros Hall; specialize (Hall cr' eq_refl); lia].
    + split.
      * intros cr. split; [done | intros [[= ->] Hlt]; lia].
      * split; [by intros _ cr [= <-] | done].
  - split.
    + intros cr. split; [done | by intros [? _]].
    + split; [by intros _ cr | done].
Qed.

Lemma Sub_mono (t t' u : Z) : t <= t' -> Sub t u <= Sub t' u.
Proof. unfold Sub. lia. Qed.

(** X8: an entry does not come back: once a request for a key is a miss,
    every later request for it on the same cache is a miss, and a hit was a
    hit at every earlier instant. *)
Theorem Request_miss_is_final :
  forall (Value Stream : Type) (c : Cache Value Stream) (now later : Z)
         (query : string) (i1 i2 : bool),
    now <= later ->
    Request c now query i1 = Miss ->
    Request c later query i2 = Miss.
Proof.
  intros Value Stream c now later query i1 i2 Hle. unfold Request.
  destruct (stable c !! query) as [cr |]; [| done].
  pose proof (Sub_mono now later (birth cr) Hle). unfold Since.
  destruct (Z.ltb_spec (Sub now (birth cr)) (timeout c)); [done |].
  destruct (Z.ltb_spec (Sub later (birth cr)) (timeout c)); [lia | done].
Qed.

Lemma Request_miss_is_final_witness :
  Request cache0 (7 * Minute) "q" true = Miss.
Proof.
  apply (Request_miss_is_final unit unit cache0 (5 * Minute) (7 * Minute)
           "q" false true).
  - vm_compute. discriminate.
  - reflexivity.
Defined.

End lookup_more.
(** ** The request, event by event *)

Section request_more.
Import Request Discipline Vocabulary.
Context {Value Err M : Type} `{Materializer Value Err M}.
Variable nil_value : Value.
Implicit Type r : request Value Err M.

Lemma answers_app r (ch : ansCh) (l : list (ansCh * valueAsk.t Value Err)) :
  snd <$> filter (fun p => p.1 = ch) (sent r ++ l) =
  answers r ch ++ (snd <$> filter (fun p => p.1 = ch) l).
Proof. unfold answers. by rewrite filter_app, fmap_app. Qed.


Lemma step_one_answer_each r r' (e : event) :
  step nil_value r e = Return r' -> one_answer_each r -> one_answer_each r'.
Proof.
  unfold one_answer_each.
  destruct e as [index | |]; simpl.
  - unfold on_ask; simpl.
    destruct (_ <? _).
    + destruct (view_at _ _); simpl; [| done | done].
      intros [= <-]; cbn [sent waiting pipes]. intros Hp.
      rewrite fmap_app, seq_S. cbn [fmap list_fmap fst Nat.add].
      rewrite <- Hp, <- !app_assoc. f_equiv. apply Permutation_app_comm.
    + intros [= <-]; cbn [sent waiting pipes]. intros Hp.
      rewrite seq_S. cbn [Nat.add]. by rewrite <- Hp, app_assoc.
  - destruct (spawned r).
    + by intros [= <-].
    + intros [= <-]. unfold on_pull.
      by destruct (Materialize (dbStream r)) as [[val ok] db].
  - destruct (ready r).
    + by intros [= <-].
    + unfold on_materialized.
      destruct (waiting r) as [| ch [| ? ?]] eqn:Hwt; [| | done];
        intros [= <-]; cbn [answered sent waiting pipes]; intros Hp;
        rewrite fmap_app, <- list_fmap_compose, app_nil_r;
        rewrite <- Hp; f_equiv; by rewrite list_fmap_id.
Qed.

Lemma exec_one_answer_each (evs : list event) r r' :
  exec nil_value r evs = Return r' -> one_answer_each r -> one_answer_each r'.
Proof.
  revert r. induction evs as [| e evs IH]; intros r; simpl.
  - by intros [= <-].
  - destruct (step nil_value r e) as [r1 | msg |] eqn:Hr1; simpl;
      [| done | done].
    intros Hex Hinv. eapply IH; [exact Hex |]. by eapply step_one_answer_each.
Qed.

Lemma newRequest_one_answer_each (db : M) :
  one_answer_each (newRequest (Value := Value) (Err := Err) db).
Proof. unfold one_answer_each. reflexivity. Qed.

(** Distinct channels: the answers on one channel are at most one. *)
Lemma answers_count (l : list (ansCh * valueAsk.t Value Err)) (ch : ansCh) :
  NoDup (l.*1) ->
  length (filter (fun p => p.1 = ch) l) = (if bool_decide (ch ∈ l.*1) then 1 else 0)%nat.
Proof.
  induction l as [| [c a] l IH]; simpl; [done |].
  intros [Hnotin Hnd]%NoDup_cons. specialize (IH Hnd).
  rewrite filter_cons; simpl. destruct (decide (c = ch)) as [-> | Hne].
  - simpl. rewrite IH. rewrite bool_decide_false by done.
    rewrite bool_decide_true; [done | by left].
  - rewrite IH. apply f_equal with (f := fun b : bool => if b then 1%nat else 0%nat).
    apply bool_decide_ext. rewrite elem_of_cons.
    split; [by right | by intros [-> |]].
Qed.

(** Nothing has been sent yet on the channel [askPipes] makes next. *)
Lemma answers_fresh r : one_answer_each r -> answers r (pipes r) = [].
Proof.
  intros Hp. unfold answers. apply length_zero_iff_nil.
  unfold one_answer_each in Hp.
  assert (Hnd : NoDup ((sent r).*1 ++ waiting r))
    by (rewrite Hp; apply NoDup_seq).
  apply NoDup_app in Hnd as (Hnd & _ & _).
  rewrite length_fmap, (answers_count _ _ Hnd).
  rewrite bool_decide_false; [done |]. intros Hs.
  assert (Hlt : pipes r ∈ seq 0 (pipes r))
    by (rewrite <- Hp; apply elem_of_app; by left).
  apply elem_of_seq in Hlt. lia.
Qed.



(** X10: [process] relies on [getValue] for the sign of the index: an ask
    with a negative index, put on the channels by anything else, makes it
    panic whatever the view holds. *)
Theorem negative_ask_panics :
  forall (r : request Value Err M) (out : ansCh) (ask : valueAsk.t Value Err),
    valueAsk.index ask < 0 ->
    on_ask r out ask = Panic "index out of range".
Proof.
  intros r out ask Hneg. unfold on_ask, view_at.
  destruct (Z.ltb_spec (valueAsk.index ask) (Z.of_nat (length (view r))));
    [| lia].
  by destruct (Z.ltb_spec (valueAsk.index ask) 0); [| lia].
Qed.

(** X11: an ask for a position the view holds is answered at once, on a
    channel of its own, with the value at that position and no error; the
    backend, the waiters and the pulls are left alone. *)
Theorem ask_within_view_served :
  forall (r : request Value Err M) (index : Z),
    0 <= index < Z.of_nat (length (view r)) ->
    exists v : Value,
      view r !! Z.to_nat index = Some v /\
      step nil_value r (EAsk index) =
        Return {| view := view r; dbStream := dbStream r;
                  streams := streams r; err := err r;
                  waiting := waiting r; spawned := spawned r;
                  ready := ready r; pipes := S (pipes r);
                  sent := sent r ++ [(pipes r, valueAsk.mk index v None)];
                  calls := calls r; taken := taken r |}.
Proof.
  intros r index Hi. rewrite step_ask.
  destruct (on_ask_hit (askPipes r).2 (pipes r) (getValue_ask nil_value index))
    as (v & Hv & ->).
  { rewrite getValue_ask_index. simpl. lia. }
  rewrite getValue_ask_index in *. simpl in *.
  replace (Z.max 0 index) with index in * by lia.
  exists v. split; [exact Hv | reflexivity].
Qed.

(** X12: in every state a new request reaches, however its asks, pulls
    and takes interleave, every answer channel made so far is in exactly
    one of two states: its reader still waits and nothing was sent on it,
    or its reader waits no longer and exactly one answer was sent on it. *)
Theorem every_channel_answered_once :
  forall (db : M) (evs : list event) (r : request Value Err M),
    exec nil_value (newRequest db) evs = Return r ->
    forall ch : ansCh,
      (ch < pipes r)%nat ->
      ((ch ∈ waiting r) /\ answers r ch = []) \/
      ((ch ∉ waiting r) /\ length (answers r ch) = 1%nat).
Proof.
  intros db evs r Hr.
  pose proof (exec_one_answer_each _ _ _ Hr (newRequest_one_answer_each db))
    as Hp.
  intros ch Hch.
  unfold one_answer_each in Hp.
  assert (Hnd : NoDup ((sent r).*1 ++ waiting r)).
  { rewrite Hp. apply NoDup_seq. }
  apply NoDup_app in Hnd as (Hnd1 & Hdisj & Hnd2).
  assert (Hin : ch ∈ (sent r).*1 ++ waiting r).
  { rewrite Hp. apply elem_of_seq. lia. }
  unfold answers. apply elem_of_app in Hin as [Hs | Hw].
  - right. split; [by apply Hdisj |].
    rewrite length_fmap, answers_count by done. by rewrite bool_decide_true.
  - left. split; [done |].
    apply length_zero_iff_nil.
    rewrite length_fmap, answers_count by done.
    rewrite bool_decide_false; [done |]. intros Hs. by apply (Hdisj ch).
Qed.


(** [getValue] at a position the view holds: the answer comes from the
    view, on the channel just made. *)
Lemma getValue_hit r (index : Z) :
  one_answer_each r ->
  Z.max 0 index < Z.of_nat (length (view r)) ->
  exists v,
    view r !! Z.to_nat (Z.max 0 index) = Some v /\
    getValue nil_value r index =
      Return ((v, true),
              {| view := view r; dbStream := dbStream r;
                 streams := streams r; err := err r;
                 waiting := waiting r; spawned := spawned r;
                 ready := ready r; pipes := S (pipes r);
                 sent := sent r ++
                         [(pipes r, valueAsk.mk (Z.max 0 index) v None)];
                 calls := calls r; taken := taken r |}).
Proof.
  intros Hp Hin. pose proof (answers_fresh r Hp) as Hfresh.
  assert (exists v : Value,
             view r !! Z.to_nat (Z.max 0 index) = Some v /\
             step nil_value r (EAsk index) =
               Return {| view := view r; dbStream := dbStream r;
                         streams := streams r; err := err r;
                         waiting := waiting r; spawned := spawned r;
                         ready := ready r; pipes := S (pipes r);
                         sent := sent r ++
                                 [(pipes r, valueAsk.mk (Z.max 0 index) v None)];
                         calls := calls r; taken := taken r |})
    as (v & Hv & Hstep).
  { rewrite step_ask.
    destruct (on_ask_hit (askPipes r).2 (pipes r) (getValue_ask nil_value index))
      as (v & Hv & ->).
    { rewrite getValue_ask_index. simpl. lia. }
    rewrite getValue_ask_index in *. simpl in *.
    exists v. split; [exact Hv | reflexivity]. }
  exists v. split; [exact Hv |].
  unfold getValue. rewrite Hstep. cbn [mbind result_bind rbind].
  unfold answers in *. cbn [sent].
  assert (Hans :
    (filter (fun p : ansCh * valueAsk.t Value Err => p.1 = pipes r)
       (sent r ++ [(pipes r, valueAsk.mk (Z.max 0 index) v None)])).*2
    = [valueAsk.mk (Z.max 0 index) v None]).
  { rewrite filter_app, fmap_app, Hfresh. by rewrite filter_cons_True. }
  rewrite Hans. cbn [mbind result_bind rbind sent]. rewrite Hans. done.
Qed.

(** [getValue] past the view of an idle request: one call of
    [Materialize]; the flag returned is whether the request holds an error
    after the pull, not the flag of the backend. *)
Lemma getValue_idle r (index : Z) :
  idle r -> one_answer_each r ->
  Z.of_nat (length (view r)) <= Z.max 0 index ->
  exists r',
    getValue nil_value r index
      = Return (((Materialize (dbStream r)).1.1,
                 bool_decide ((if (Materialize (dbStream r)).1.2 then err r
                               else Error (Materialize (dbStream r)).2) = None)),
                r') /\
    idle r' /\ one_answer_each r' /\
    dbStream r' = (Materialize (dbStream r)).2 /\
    err r' = (if (Materialize (dbStream r)).1.2 then err r
              else Error (Materialize (dbStream r)).2) /\
    view r' = view r /\ calls r' = S (calls r).
Proof.
  intros (Hw & Hs & Hr) Hp Hpast.
  pose proof (answers_fresh r Hp) as Hfresh.
  unfold idle, one_answer_each, answers in *.
  destruct r as [vw db st er wt sp rd pp sn ca tk]; simpl in *. subst wt sp rd.
  unfold getValue, answers, on_pull; simpl.
  assert (Hge : ((if index <? 0 then 0 else index) <? Z.of_nat (length vw)) = false).
  { destruct (Z.ltb_spec index 0); apply Z.ltb_ge; lia. }
  unfold on_ask; simpl. rewrite Hge. simpl. rewrite Hfresh. simpl.
  unfold on_pull; simpl.
  destruct (Materialize db) as [[val ok] db']; simpl.
  rewrite filter_app, fmap_app, Hfresh.
  rewrite filter_cons_True by done. simpl.
  eexists. split; [reflexivity |]. simpl.
  repeat split; try done.
  rewrite fmap_app; simpl. rewrite app_nil_r in Hp.
  change (0%nat :: seq 1 pp) with (seq 0 (S pp)).
  by rewrite app_nil_r, seq_S, Hp.
Qed.

(** X14: on a request at rest, with nobody waiting and no pull alive,
    [getValue] returns for any index, negative or past the view, and
    leaves the request at rest.  A position the view holds is answered
    from the view with the flag [true] and no call of the backend; any
    other one costs one call of [Materialize], and the flag tells whether
    the request holds an error after it. *)
Theorem getValue_returns_at_rest :
  forall (r : request Value Err M) (index : Z),
    idle r -> one_answer_each r ->
    exists (v : Value) (ok : bool) (r' : request Value Err M),
      getValue nil_value r index = Return ((v, ok), r') /\
      idle r' /\ one_answer_each r' /\ view r' = view r /\
      ((Z.max 0 index < Z.of_nat (length (view r)) /\
        view r !! Z.to_nat (Z.max 0 index) = Some v /\
        ok = true /\ calls r' = calls r /\ err r' = err r) \/
       (Z.of_nat (length (view r)) <= Z.max 0 index /\
        v = (Materialize (dbStream r)).1.1 /\
        ok = bool_decide (err r' = None) /\
        calls r' = S (calls r) /\
        err r' = (if (Materialize (dbStream r)).1.2 then err r
                  else Error (Materialize (dbStream r)).2))).
Proof.
  intros r index Hidle Hp.
  destruct (Z.lt_ge_cases (Z.max 0 index) (Z.of_nat (length (view r))))
    as [Hin | Hpast].
  - destruct (getValue_hit r index Hp Hin) as (v & Hv & Hget).
    eexists v, true, _. split; [exact Hget |].
    split; [exact Hidle |]. split.
    { unfold one_answer_each in *. cbn [sent waiting pipes].
      rewrite fmap_app, seq_S. cbn [fmap list_fmap fst Nat.add].
      rewrite <- Hp, <- !app_assoc. f_equiv. apply Permutation_app_comm. }
    split; [done |]. left. by repeat split.
  - destruct (getValue_idle r index Hidle Hp Hpast)
      as (r' & Hget & Hidle' & Hp' & _ & Herr & Hview & Hcalls).
    eexists _, _, r'. split; [exact Hget |].
    split; [exact Hidle' |]. split; [exact Hp' |]. split; [exact Hview |].
    right. rewrite Herr. by repeat split.
Qed.

End request_more.

Section request_more_witnesses.
Import Request Discipline Vocabulary.

Lemma negative_ask_panics_witness :
  on_ask viewed_request 0%nat (valueAsk.mk (-1) 0%nat None)
    = Panic "index out of range".
Proof.
  apply (negative_ask_panics viewed_request 0%nat (valueAsk.mk (-1) 0%nat None)).
  simpl. lia.
Defined.

Lemma ask_within_view_served_witness :
  exists v : nat,
    view viewed_request !! Z.to_nat 1 = Some v /\
    step 0%nat viewed_request (EAsk 1) =
      Return {| view := view viewed_request;
                dbStream := dbStream viewed_request;
                streams := streams viewed_request; err := err viewed_request;
                waiting := waiting viewed_request;
                spawned := spawned viewed_request;
                ready := ready viewed_request;
                pipes := S (pipes viewed_request);
                sent := sent viewed_request ++
                        [(pipes viewed_request, valueAsk.mk 1 v None)];
                calls := calls viewed_request;
                taken := taken viewed_request |}.
Proof.
  apply (ask_within_view_served 0%nat viewed_request 1). simpl. lia.
Defined.

Lemma every_channel_answered_once_witness :
  exists r : request nat string script,
    exec 0%nat (newRequest (Script [7%nat] None))
      [EAsk 0; EPull; ETake; EAsk 3] = Return r /\
    forall ch : ansCh,
      (ch < pipes r)%nat ->
      ((ch ∈ waiting r) /\ answers r ch = []) \/
      ((ch ∉ waiting r) /\ length (answers r ch) = 1%nat).
Proof.
  eexists. split; [reflexivity |].
  apply (every_channel_answered_once 0%nat (Script [7%nat] None)
           [EAsk 0; EPull; ETake; EAsk 3]).
  reflexivity.
Defined.


Lemma getValue_returns_at_rest_witness :
  let r := newRequest (Value := nat) (Err := string) (Script [7%nat] None) in
  exists (v : nat) (ok : bool) (r' : request nat string script),
    getValue 0%nat r (-5) = Return ((v, ok), r') /\
    idle r' /\ one_answer_each r' /\ view r' = view r /\
    ((Z.max 0 (-5) < Z.of_nat (length (view r)) /\
      view r !! Z.to_nat (Z.max 0 (-5)) = Some v /\
      ok = true /\ calls r' = calls r /\ err r' = err r) \/
     (Z.of_nat (length (view r)) <= Z.max 0 (-5) /\
      v = (Materialize (dbStream r)).1.1 /\
      ok = bool_decide (err r' = None) /\
      calls r' = S (calls r) /\
      err r' = (if (Materialize (dbStream r)).1.2 then err r
                else Error (Materialize (dbStream r)).2))).
Proof.
  intros r.
  apply (getValue_returns_at_rest 0%nat r (-5)).
  - repeat split.
  - unfold one_answer_each. reflexivity.
Defined.

End request_more_witnesses.

(** ** Streams over a request *)

Section stream_more.
Import Request Discipline Vocabulary StreamRuns.
Context {Value Err M : Type} `{Materializer Value Err M}.
Variable nil_value : Value.
Implicit Type r host : request Value Err M.
Implicit Type st : Stream.stream (Value := Value) (Err := Err).

(** The set of streams is read by no event: taking a stream off commutes
    with everything the request does. *)
Lemma step_removeStream r (id : nat) (e : event) :
  step nil_value (removeStream r id) e =
    r' ← step nil_value r e; Return (removeStream r' id).
Proof.
  destruct e as [index | |]; simpl.
  - unfold on_ask, view_at, index_slice, getValue_ask; simpl.
    destruct (index <? 0); simpl;
      (destruct (_ <? Z.of_nat _); [| reflexivity]);
      try (destruct (_ <? 0)); simpl; try reflexivity;
      by destruct (view r !! _).
  - destruct (spawned r); [reflexivity |]. simpl.
    unfold on_pull, removeStream; simpl.
    by destruct (Materialize (dbStream r)) as [[val ok] db].
  - destruct (ready r); [reflexivity |].
    unfold on_materialized; simpl.
    by destruct (waiting r) as [| ? [| ? ?]].
Qed.

Lemma exec_removeStream (evs : list event) r (id : nat) :
  exec nil_value (removeStream r id) evs =
    r' ← exec nil_value r evs; Return (removeStream r' id).
Proof.
  revert r. induction evs as [| e evs IH]; intros r; simpl; [reflexivity |].
  rewrite step_removeStream.
  destruct (step nil_value r e) as [r1 | msg |]; simpl; [apply IH | done | done].
Qed.

Lemma getValue_removeStream r (id : nat) (index : Z) :
  getValue nil_value (removeStream r id) index =
    a ← getValue nil_value r index; Return (a.1, removeStream a.2 id).
Proof.
  unfold getValue. rewrite step_removeStream.
  change (pipes (removeStream r id)) with (pipes r).
  destruct (step nil_value r (EAsk index)) as [r1 | msg |];
    cbn [mbind result_bind rbind]; [| done | done].
  change (answers (removeStream r1 id) (pipes r)) with (answers r1 (pipes r)).
  destruct (answers r1 (pipes r)) as [| ans rest] eqn:Ha.
  - rewrite exec_removeStream.
    destruct (exec nil_value r1 [EPull; ETake]) as [r2 | msg |];
      cbn [mbind result_bind rbind]; [| done | done].
    change (answers (removeStream r2 id) (pipes r)) with (answers r2 (pipes r)).
    by destruct (answers r2 (pipes r)).
  - cbn [mbind result_bind rbind].
    change (answers (removeStream r1 id) (pipes r)) with (answers r1 (pipes r)).
    by rewrite Ha.
Qed.

Lemma process_removeStream st r (id : nat) :
  Stream.process nil_value st (removeStream r id) =
    a ← Stream.process nil_value st r; Return (a.1, removeStream a.2 id).
Proof.
  unfold Stream.process.
  destruct (Stream.returned st); [reflexivity |].
  destruct (Stream.offered st); [reflexivity |].
  destruct (Stream.reset_closed st); [reflexivity |].
  unfold Stream.produce. rewrite getValue_removeStream.
  destruct (getValue nil_value r (wrap_int (Stream.index st + 1)))
    as [[[val ok] h] | |]; simpl; [| done | done].
  by destruct ok.
Qed.

(** X15: closing one stream does not disturb another: what the other
    stream's next [Materialize] returns, and the state it leaves, are the
    same whether the first stream was closed before or after it; only the
    set of streams of the host tells the difference. *)
Theorem Close_leaves_other_streams :
  forall st1 st2 host,
    Stream.Materialize nil_value st2 (Stream.Close st1 host).2 =
      a ← Stream.Materialize nil_value st2 host;
      Return (a.1, (Stream.Close st1 a.2).2).
Proof.
  intros st1 st2 host. unfold Stream.Close.
  destruct (Stream.closed st1).
  - simpl. by destruct (Stream.Materialize nil_value st2 host) as [[[a s] h] | |].
  - simpl. unfold Stream.Materialize.
    destruct (Stream.closed st2); [reflexivity |].
    destruct (Stream.receive nil_value st2) as [[a st'] |]; [reflexivity |].
    rewrite process_removeStream.
    destruct (Stream.process nil_value st2 host) as [[st3 h] | |];
      simpl; [| done | done].
    by destruct (Stream.receive nil_value st3) as [[a st'] |].
Qed.

(** X16: once [Materialize] has returned [false], the stream is finished:
    every later [Materialize] returns the zero value and [false] without
    asking the host, which it leaves as it is; [Reset] blocks for ever; and
    [Close] still returns the error the stream recorded. *)
Theorem finished_stream_stays_finished :
  forall st host st' host' (v : Value),
    Stream.Materialize nil_value st host = Return ((v, false), st', host') ->
    (forall host2,
       Stream.Materialize nil_value st' host2
         = Return ((nil_value, false), st', host2)) /\
    Stream.Reset st' = Blocked /\
    (forall host2, (Stream.Close st' host2).1.1 = Stream.err st') /\
    v = nil_value.
Proof.
  intros st host st' host' v.
  assert (Hfin : forall s : Stream.stream (Value := Value) (Err := Err),
            Stream.closed s = false -> Stream.offered s = None ->
            Stream.returned s = true ->
            (forall host2,
               Stream.Materialize nil_value s host2
                 = Return ((nil_value, false), s, host2)) /\
            Stream.Reset s = Blocked /\
            (forall host2, (Stream.Close s host2).1.1 = Stream.err s)).
  { intros s Hc Ho Hr.
    unfold Stream.Materialize, Stream.receive, Stream.Reset, Stream.Close.
    rewrite Hc, Ho, Hr. by repeat split. }
  assert (Hrecv : forall (s s' : Stream.stream (Value := Value) (Err := Err))
                         (w : Value),
            Stream.closed s = false ->
            Stream.receive nil_value s = Some ((w, false), s') ->
            w = nil_value /\ Stream.closed s' = false /\
            Stream.offered s' = None /\ Stream.returned s' = true).
  { intros s s' w Hc. unfold Stream.receive.
    destruct (Stream.offered s) eqn:Ho; [done |].
    destruct (Stream.returned s) eqn:Hr; [| done].
    by intros [= <- <-]. }
  unfold Stream.Materialize.
  destruct (Stream.closed st) eqn:Hc; [done |].
  destruct (Stream.receive nil_value st) as [[a st1] |] eqn:Hrc.
  - intros [= -> <- <-].
    destruct (Hrecv _ _ _ Hc Hrc) as (-> & Hc' & Ho' & Hr').
    destruct (Hfin st1 Hc' Ho' Hr') as (H1 & H2 & H3). by repeat split.
  - destruct (Stream.process nil_value st host) as [[st1 h] | |] eqn:Hpr;
      simpl; [| done | done].
    destruct (Stream.receive nil_value st1) as [[a st2] |] eqn:Hrc1; [| done].
    intros [= -> <- <-].
    assert (Hc1 : Stream.closed st1 = false).
    { revert Hpr. unfold Stream.process.
      destruct (Stream.returned st); [by intros [= <- <-] |].
      destruct (Stream.offered st); [by intros [= <- <-] |].
      destruct (Stream.reset_closed st); [by intros [= <- <-] |].
      unfold Stream.produce.
      destruct (getValue nil_value host (wrap_int (Stream.index st + 1)))
        as [[[val ok] h'] | |]; simpl; [| done | done].
      destruct ok; by intros [= <- <-]. }
    destruct (Hrecv _ _ _ Hc1 Hrc1) as (-> & Hc' & Ho' & Hr').
    destruct (Hfin st2 Hc' Ho' Hr') as (H1 & H2 & H3). by repeat split.
Qed.


(** A stream over an exhausted backend, whatever the schedule. *)
Lemma run_exhausted (sch : list action) st host (v : Value) :
  Stream.closed st = false ->
  Stream.reset_closed st = false ->
  Stream.returned st = false ->
  Stream.offered st = None \/ Stream.offered st = Some v ->
  view host = [] ->
  idle host -> one_answer_each host ->
  err host = None ->
  exhausted (dbStream host) v ->
  exists st' host',
    run nil_value sch st host
      = Return (replicate (reads sch) (v, true), st', host') /\
    Stream.closed st' = false /\
    Stream.returned st' = false /\
    (Stream.offered st' = None \/ Stream.offered st' = Some v) /\
    (calls host' + (if Stream.offered st is Some _ then 1 else 0)
     = calls host + reads sch + (if Stream.offered st' is Some _ then 1 else 0))%nat.
Proof.
  revert st host.
  assert (Hturn : forall st host,
            Stream.closed st = false -> Stream.reset_closed st = false ->
            Stream.returned st = false -> Stream.offered st = None ->
            view host = [] -> idle host -> one_answer_each host ->
            err host = None -> exhausted (dbStream host) v ->
            exists st1 host1,
              Stream.process nil_value st host = Return (st1, host1) /\
              Stream.closed st1 = false /\ Stream.reset_closed st1 = false /\
              Stream.returned st1 = false /\ Stream.offered st1 = Some v /\
              view host1 = [] /\ idle host1 /\ one_answer_each host1 /\
              err host1 = None /\ exhausted (dbStream host1) v /\
              calls host1 = S (calls host)).
  { intros st host Hc Hrc Hret Ho Hview Hidle Hp He [Hm Herr].
    destruct (getValue_idle nil_value host (wrap_int (Stream.index st + 1))
                Hidle Hp) as (h1 & Hget & Hidle1 & Hp1 & Hdb1 & Herr1 & Hview1 & Hcalls1).
    { rewrite Hview. simpl. lia. }
    rewrite Hm in Hget, Hdb1, Herr1. simpl in Hget, Hdb1, Herr1.
    rewrite Herr in Hget, Herr1. rewrite bool_decide_true in Hget by done.
    unfold Stream.process, Stream.produce. rewrite Hret, Ho, Hrc, Hget.
    cbn [mbind result_bind rbind].
    eexists _, h1. split; [reflexivity |]. simpl.
    repeat (split; [done |]).
    split; [congruence |]. split; [done |]. split; [done |].
    split; [done |]. split; [| done]. rewrite Hdb1. by split. }
  induction sch as [| a sch IH];
    intros st host Hc Hrc Hret Ho Hview Hidle Hp He Hx.
  - exists st, host. simpl. split; [done |]. split; [done |].
    split; [done |]. split; [done |]. lia.
  - destruct a; cbn [run reads].
    + (* the goroutine takes a turn *)
      destruct Ho as [Ho | Ho].
      * destruct (Hturn st host Hc Hrc Hret Ho Hview Hidle Hp He Hx)
          as (st1 & h1 & Hpr & Hc1 & Hrc1 & Hret1 & Ho1 & Hv1 & Hi1 & Hp1
              & He1 & Hx1 & Hcalls1).
        rewrite Hpr. cbn [mbind result_bind rbind].
        destruct (IH st1 h1 Hc1 Hrc1 Hret1 (or_intror Ho1) Hv1 Hi1 Hp1 He1 Hx1)
          as (st' & host' & Hrun & Hc' & Hret' & Ho' & Hcalls').
        exists st', host'. split; [exact Hrun |].
        split; [done |]. split; [done |]. split; [done |].
        rewrite Ho. rewrite Ho1 in Hcalls'. lia.
      * unfold Stream.process. rewrite Hret, Ho.
        cbn [mbind result_bind rbind].
        destruct (IH st host Hc Hrc Hret (or_intror Ho) Hview Hidle Hp He Hx)
          as (st' & host' & Hrun & Hc' & Hret' & Ho' & Hcalls').
        exists st', host'. rewrite Ho in Hcalls'.
        split; [exact Hrun |]. split; [done |]. split; [done |].
        split; [done | lia].
    + (* the consumer reads *)
      unfold Stream.Materialize, Stream.receive. rewrite Hc.
      destruct Ho as [Ho | Ho].
      * rewrite Ho, Hret.
        destruct (Hturn st host Hc Hrc Hret Ho Hview Hidle Hp He Hx)
          as (st1 & h1 & Hpr & Hc1 & Hrc1 & Hret1 & Ho1 & Hv1 & Hi1 & Hp1
              & He1 & Hx1 & Hcalls1).
        rewrite Hpr. cbn [mbind result_bind rbind]. rewrite Ho1.
        cbn [mbind result_bind rbind].
        set (st2 := Stream.Build_stream _ _ _ _ _ _ _).
        destruct (IH st2 h1) as (st' & host' & Hrun & Hc' & Hret' & Ho' & Hcalls');
          try done; [by left |].
        rewrite Hrun. cbn [mbind result_bind rbind].
        exists st', host'. split; [reflexivity |].
        split; [done |]. split; [done |]. split; [done |].
        subst st2; simpl in Hcalls'. lia.
      * rewrite Ho. cbn [mbind result_bind rbind].
        set (st2 := Stream.Build_stream _ _ _ _ _ _ _).
        destruct (IH st2 host) as (st' & host' & Hrun & Hc' & Hret' & Ho' & Hcalls');
          try done; [by left |].
        rewrite Hrun. cbn [mbind result_bind rbind].
        exists st', host'. split; [reflexivity |].
        split; [done |]. split; [done |]. split; [done |].
        subst st2; simpl in Hcalls'. lia.
Qed.

(** X18: a backend that has ended without error is not reported to the
    consumer.  On a request at rest, with no error and an empty view, an
    open stream never finishes: however the turns of its goroutine and the
    calls of [Materialize] follow one another, every call returns the zero
    value of the backend with the flag [true].  The goroutine runs ahead of
    the consumer by one value at most: the backend has been called once for
    every value read, and once more when the goroutine waits with the
    next. *)
Theorem exhausted_stream_never_ends :
  forall (sch : list action) st host (v : Value),
    Stream.closed st = false ->
    Stream.reset_closed st = false ->
    Stream.returned st = false ->
    Stream.offered st = None ->
    view host = [] ->
    idle host -> one_answer_each host ->
    err host = None ->
    exhausted (dbStream host) v ->
    exists st' host',
      run nil_value sch st host
        = Return (replicate (reads sch) (v, true), st', host') /\
      Stream.closed st' = false /\
      Stream.returned st' = false /\
      calls host' = (calls host + reads sch
                     + (if Stream.offered st' is Some _ then 1 else 0))%nat.
Proof.
  intros sch st host v Hc Hrc Hret Ho Hview Hidle Hp He Hx.
  destruct (run_exhausted sch st host v Hc Hrc Hret (or_introl Ho)
              Hview Hidle Hp He Hx)
    as (st' & host' & Hrun & Hc' & Hret' & _ & Hcalls).
  exists st', host'. rewrite Ho in Hcalls.
  split; [exact Hrun |]. split; [done |]. split; [done | lia].
Qed.

End stream_more.

Section stream_more_witnesses.
Import Request Discipline Vocabulary StreamRuns.

Lemma finished_stream_stays_finished_witness :
  let st := Stream.newStreamMaterializer (Err := string) 0 in
  let host := newRequest (Value := nat) (Err := string)
                (Script [] (Some "boom"%string)) in
  exists st' host',
    Stream.Materialize 0%nat st host = Return ((0%nat, false), st', host') /\
    (forall host2 : request nat string script,
       Stream.Materialize 0%nat st' host2
         = Return ((0%nat, false), st', host2)) /\
    Stream.Reset st' = Blocked /\
    (forall host2 : request nat string script, (Stream.Close st' host2).1.1 = Stream.err st') /\
    0%nat = 0%nat.
Proof.
  intros st host. eexists _, _. split; [reflexivity |].
  eapply (finished_stream_stays_finished 0%nat st host). reflexivity.
Defined.


Lemma exhausted_stream_never_ends_witness :
  let st := Stream.newStreamMaterializer (Value := nat) (Err := string) 0 in
  let host := newRequest (Value := nat) (Err := string) (Script [] None) in
  exists st' host',
    run 0%nat [Turn; Read; Read; Turn; Turn; Read] st host
      = Return (replicate (reads [Turn; Read; Read; Turn; Turn; Read])
                  (0%nat, true), st', host') /\
    Stream.closed st' = false /\
    Stream.returned st' = false /\
    calls host' = (calls host + reads [Turn; Read; Read; Turn; Turn; Read]
                   + (if Stream.offered st' is Some _ then 1 else 0))%nat.
Proof.
  intros st host.
  apply (exhausted_stream_never_ends 0%nat
           [Turn; Read; Read; Turn; Turn; Read] st host 0%nat).
  - reflexivity.
  - reflexivity.
  - reflexivity.
  - reflexivity.
  - reflexivity.
  - repeat split.
  - unfold one_answer_each. reflexivity.
  - reflexivity.
  - split; reflexivity.
Defined.

End stream_more_witnesses.

(** ** The earlier revision: serving loop and clients *)

Section v0_more.
Import Request.
Context {Value Err M : Type} `{Materializer Value Err M}.
Variable nil_value : Value.
Implicit Type r host : RequestV0.request Value Err M.
Implicit Type cl : ClientV0.client (Err := Err).

(** X19: the scan of the serving loop answers with the first item, from
    the asked position on, that is immutable or younger than the timeout,
    and with the position of that item; every item it passed over is
    mutable and stale.  It finds nothing exactly when every item from the
    asked position on is mutable and stale. *)
Theorem first_fresh_finds_first :
  forall (timeout now i : Z) (items : list (RequestV0.cacheItem Value)),
    match RequestV0.first_fresh timeout now i items with
    | Some (j, v) =>
        exists (k : nat) (it : RequestV0.cacheItem Value),
          j = i + Z.of_nat k /\
          items !! k = Some it /\
          v = RequestV0.value it /\
          (RequestV0.immutable it = true \/
           CacheStore.Since now (RequestV0.birth it) < timeout) /\
          forall (k' : nat) (it' : RequestV0.cacheItem Value),
            (k' < k)%nat -> items !! k' = Some it' ->
            RequestV0.immutable it' = false /\
            timeout <= CacheStore.Since now (RequestV0.birth it')
    | None =>
        forall (k : nat) (it : RequestV0.cacheItem Value),
          items !! k = Some it ->
          RequestV0.immutable it = false /\
          timeout <= CacheStore.Since now (RequestV0.birth it)
    end.
Proof.
  intros timeout now i items. revert i.
  induction items as [| it items IH]; intros i; simpl; [done |].
  destruct (RequestV0.immutable it) eqn:Him; simpl.
  { exists 0%nat, it. split; [lia |]. split; [done |]. split; [done |].
    split; [by left | intros k' it' Hlt; lia]. }
  destruct (Z.ltb_spec (CacheStore.Since now (RequestV0.birth it)) timeout)
    as [Hlt | Hge].
  { exists 0%nat, it. split; [lia |]. split; [done |]. split; [done |].
    split; [by right | intros k' it' Hlt'; lia]. }
  specialize (IH (i + 1)).
  destruct (RequestV0.first_fresh timeout now (i + 1) items) as [[j v] |].
  - destruct IH as (k & it0 & -> & Hk & -> & Hfresh & Hbefore).
    exists (S k), it0. split; [lia |]. split; [done |]. split; [done |].
    split; [done |].
    intros k' it' Hlt Hk'. destruct k' as [| k']; simpl in Hk'.
    + by injection Hk' as <-.
    + apply (Hbefore k'); [lia | done].
  - intros k it' Hk. destruct k as [| k]; simpl in Hk.
    + by injection Hk as <-.
    + by eapply IH.
Qed.



(** X22: in the earlier revision [Close] is not idempotent: a first
    [Close] takes the client off the host's set and leaves [Materialize]
    returning the zero value and [false]; a second [Close] panics on the
    channel already closed. *)
Theorem v0_Close_twice_panics :
  forall cl (clients : gset nat) cl' (clients' : gset nat) host (now : Z),
    ClientV0.Close cl clients = Return (cl', clients') ->
    (ClientV0.id cl ∉ clients') /\
    (forall other, other <> ClientV0.id cl ->
                   other ∈ clients' <-> other ∈ clients) /\
    ClientV0.Materialize nil_value cl' host now
      = Return ((nil_value, false), cl', host) /\
    ClientV0.Close cl' clients' = Panic "close of closed channel" /\
    ClientV0.Error cl' = ClientV0.err cl.
Proof.
  intros cl clients cl' clients' host now. unfold ClientV0.Close.
  destruct (ClientV0.values_closed cl); [done |].
  destruct (ClientV0.toggle_closed cl); [done |].
  intros [= <- <-]. unfold ClientV0.Materialize; simpl.
  split; [| split; [| done]].
  - rewrite elem_of_difference, elem_of_singleton. tauto.
  - intros other Hne. rewrite elem_of_difference, elem_of_singleton. tauto.
Qed.

End v0_more.

Section v0_more_witnesses.
Import Request Vocabulary.


Lemma v0_Close_twice_panics_witness :
  let cl := ClientV0.newClientMaterializer (Err := string) 7 in
  let host := RequestV0.newRequest (Value := nat) (Err := string) 0
                (Script [] None) in
  exists cl' clients',
    ClientV0.Close cl ({[ 7%nat; 8%nat ]} : gset nat) = Return (cl', clients') /\
    (ClientV0.id cl ∉ clients') /\
    (forall other, other <> ClientV0.id cl ->
                   other ∈ clients' <-> other ∈ ({[ 7%nat; 8%nat ]} : gset nat)) /\
    ClientV0.Materialize 0%nat cl' host 0 = Return ((0%nat, false), cl', host) /\
    ClientV0.Close cl' clients' = Panic "close of closed channel" /\
    ClientV0.Error cl' = ClientV0.err cl.
Proof.
  intros cl host. eexists _, _. split; [reflexivity |].
  eapply (v0_Close_twice_panics 0%nat cl _ _ _ host 0). reflexivity.
Defined.

End v0_more_witnesses.

(** ** The range iterator and the base iterator *)

Section iterator_more.
Import Iterator.
Context {Tagger : Type}.
Variable Tags : Tagger -> list string.
Variable Fixed : Tagger -> gmap string Value.
Implicit Type it : Int64 (Tagger := Tagger).

Lemma wrap64_small (z : Z) : MinInt64 <= z <= MaxInt64 -> wrap64 z = z.
Proof.
  unfold wrap64, MinInt64, MaxInt64. intros Hz.
  rewrite Z.mod_small by lia. lia.
Qed.

Lemma Nexts_S (n : nat) it :
  Nexts (S n) it =
    ((Next it).1 :: (Nexts n (Next it).2).1, (Nexts n (Next it).2).2).
Proof.
  simpl. destruct (Next it) as [ok it1]. simpl.
  by destruct (Nexts n it1) as [oks it2].
Qed.

Lemma values_S (n : nat) it :
  values (S n) it =
    if (Next it).1 then result (base (Next it).2) :: values n (Next it).2
    else values n (Next it).2.
Proof. simpl. by destruct (Next it) as [ok it1]. Qed.

(** [Next] at the sentinel and away from it. *)
Lemma Next_done it :
  at_ it = -1 ->
  (Next it).1 = false /\ at_ (Next it).2 = -1 /\ max (Next it).2 = max it.
Proof. intros Hat. unfold Next. by rewrite Hat. Qed.

Lemma Next_step it :
  at_ it <> -1 ->
  (Next it).1 = true /\
  result (base (Next it).2) = VInt64 (at_ it) /\
  at_ (Next it).2 = (if wrap64 (at_ it + 1) >? max it then -1
                     else wrap64 (at_ it + 1)) /\
  max (Next it).2 = max it.
Proof.
  intros Hat. unfold Next.
  by destruct (Z.eqb_spec (at_ it) (-1)).
Qed.

(** What [Next] hands out depends on the position and the upper bound
    only. *)
Lemma values_ext (n : nat) it it' :
  at_ it = at_ it' -> max it = max it' ->
  values n it = values n it' /\ (Nexts n it).1 = (Nexts n it').1.
Proof.
  revert it it'. induction n as [| n IH]; intros it it' Hat Hmax; [done |].
  rewrite !values_S, !Nexts_S. cbn [fst].
  destruct (Z.eq_dec (at_ it) (-1)) as [Heq | Hne].
  - destruct (Next_done it Heq) as (-> & Ha & Hm).
    destruct (Next_done it') as (-> & Ha' & Hm'); [congruence |].
    destruct (IH (Next it).2 (Next it').2) as [-> ->]; [congruence.. |].
    done.
  - destruct (Next_step it Hne) as (-> & Hr & Ha & Hm).
    destruct (Next_step it') as (-> & Hr' & Ha' & Hm'); [congruence |].
    rewrite <- Hat, <- Hmax in Ha'.
    destruct (IH (Next it).2 (Next it').2) as [-> ->]; [congruence.. |].
    by rewrite Hr, Hr', Hat.
Qed.

(** Once the position is the sentinel, nothing more is handed out. *)
Lemma values_done (n : nat) it :
  at_ it = -1 -> values n it = [] /\ (Nexts n it).1 = replicate n false.
Proof.
  revert it. induction n as [| n IH]; intros it Hat; [done |].
  rewrite values_S, Nexts_S. cbn [fst].
  destruct (Next_done it Hat) as (-> & Ha & _).
  destruct (IH _ Ha) as [-> ->]. done.
Qed.

(** From a position within a range that does not hold the sentinel. *)
Lemma values_from (n : nat) it :
  (0 <= at_ it \/ max it < -1) ->
  MinInt64 <= at_ it -> at_ it <= max it -> max it < MaxInt64 ->
  values n it =
    VInt64 <$> seqZ (at_ it) (Z.min (Z.of_nat n) (max it - at_ it + 1)) /\
  (Nexts n it).1 =
    replicate (Nat.min n (Z.to_nat (max it - at_ it + 1))) true ++
    replicate (n - Z.to_nat (max it - at_ it + 1)) false.
Proof.
  revert it. induction n as [| n IH]; intros it Hfree Hlo Hle Hhi.
  - simpl. rewrite seqZ_nil by lia. done.
  - rewrite values_S, Nexts_S. cbn [fst].
    destruct (Next_step it) as (-> & Hr & Ha & Hm); [lia |].
    rewrite wrap64_small in Ha by (unfold MinInt64, MaxInt64 in *; lia).
    rewrite Hr. rewrite (seqZ_cons (at_ it)) by lia. cbn [fmap list_fmap].
    destruct (Z.gtb_spec (at_ it + 1) (max it)) as [Hlast | Hmore].
    + destruct (values_done n _ Ha) as [-> ->].
      replace (max it - at_ it + 1) with 1 by lia.
      rewrite seqZ_nil by lia.
      split; [done |].
      replace (Nat.min (S n) (Z.to_nat 1)) with 1%nat by lia.
      replace (S n - Z.to_nat 1)%nat with n by lia. done.
    + destruct (IH (Next it).2) as [-> ->]; rewrite ?Ha, ?Hm; [lia.. |].
      split.
      * f_equal. f_equal. f_equal; lia.
      * replace (Z.to_nat (max it - at_ it + 1))
          with (S (Z.to_nat (max it - (at_ it + 1) + 1))) by lia.
        rewrite <- Nat.succ_min_distr. done.
Qed.

(** X23: an iterator over a range that does not hold -1 and ends below the
    largest [int64] hands out, from [min] on, exactly the integers of the
    range in increasing order and then answers [false] for ever; the number
    of values it hands out is the size it reports.  This holds for a new
    iterator and after every [Reset]. *)
Theorem Next_enumerates_range :
  forall it (n : nat),
    (0 <= min it \/ max it < -1) ->
    MinInt64 <= min it -> min it <= max it -> max it < MaxInt64 ->
    values n (Reset it) =
      VInt64 <$> seqZ (min it) (Z.min (Z.of_nat n) (max it - min it + 1)) /\
    (Nexts n (Reset it)).1 =
      replicate (Nat.min n (Z.to_nat (max it - min it + 1))) true ++
      replicate (n - Z.to_nat (max it - min it + 1)) false /\
    (Size it).1 = max it - min it + 1.
Proof.
  intros it n Hfree Hlo Hle Hhi.
  destruct (values_from n (Reset it)) as [Hv Hf]; try done.
  split; [exact Hv |]. split; [exact Hf |].
  unfold Size; simpl.
  rewrite (wrap64_small (max it - min it))
    by (unfold MinInt64, MaxInt64 in *; lia).
  apply wrap64_small. unfold MinInt64, MaxInt64 in *. lia.
Qed.

(** X24: -1 is the mark of the end, also where it is a member of the
    range: an iterator whose range holds -1 hands out the integers below -1
    and stops there; -1 and what lies above it are never handed out. *)
Theorem Next_stops_before_minus_one :
  forall it (n : nat),
    MinInt64 <= min it -> min it <= -1 -> -1 <= max it ->
    values n (Reset it) =
      VInt64 <$> seqZ (min it) (Z.min (Z.of_nat n) (-1 - min it)).
Proof.
  intros it n Hlo Hneg Hmax.
  assert (Hgen : forall (m : nat) (j : Int64 (Tagger := Tagger)),
             -1 <= max j -> MinInt64 <= at_ j -> at_ j <= -1 ->
             values m j =
               VInt64 <$> seqZ (at_ j) (Z.min (Z.of_nat m) (-1 - at_ j))).
  { induction m as [| m IH]; intros j Hmj Hloj Hnegj.
    - simpl. by rewrite seqZ_nil by lia.
    - destruct (Z.eq_dec (at_ j) (-1)) as [Heq | Hne].
      + rewrite (proj1 (values_done (S m) j Heq)).
        by rewrite seqZ_nil by lia.
      + rewrite values_S.
        destruct (Next_step j Hne) as (-> & Hr & Ha & Hm).
        rewrite wrap64_small in Ha by (unfold MinInt64, MaxInt64 in *; lia).
        destruct (Z.gtb_spec (at_ j + 1) (max j)) as [Hgt | _]; [lia |].
        rewrite Hr, (IH (Next j).2); rewrite ?Ha, ?Hm; [| lia..].
        rewrite (seqZ_cons (at_ j)) by lia. cbn [fmap list_fmap].
        f_equal. f_equal. f_equal; lia. }
  apply (Hgen n (Reset it)); simpl; lia.
Qed.


(** X26: [Contains] tells whether the value lies between [min] and [max],
    bounds included, and panics on what is not an [int64]; it counts the
    call and records the value found, but leaves the position of the
    iteration alone: what [Next] hands out afterwards is unchanged. *)
Theorem Contains_checks_range :
  forall it (tsv : Value),
    match tsv with
    | VInt64 v =>
        exists it',
          Contains it tsv
            = Return (bool_decide (min it <= v <= max it), it') /\
          result (base it') = (if bool_decide (min it <= v <= max it)
                               then VInt64 v else result (base it)) /\
          IteratorStats.Contains (runstats it')
            = wrap64 (IteratorStats.Contains (runstats it) + 1) /\
          IteratorStats.Next (runstats it') = IteratorStats.Next (runstats it) /\
          forall n : nat,
            values n it' = values n it /\ (Nexts n it').1 = (Nexts n it).1
    | _ =>
        Contains it tsv
          = Panic "interface conversion: interface {} is not int64"
    end.
Proof.
  intros it [| v | ty]; [done | | done].
  unfold Contains.
  destruct (Z.leb_spec (min it) v), (Z.leb_spec v (max it)); simpl.
  1: rewrite bool_decide_true by lia.
  2-4: rewrite bool_decide_false by lia.
  all: eexists; split; [reflexivity |]; simpl;
    split; [done |]; split; [done |]; split; [done |];
    intros n; by apply values_ext.
Qed.

(** The tags bound by the first loop of [TagResults]. *)
Lemma tag_loop (res : Value) (tags : list string) (dst : gmap string Value)
  (tag : string) :
  foldl (fun d t => <[t := res]> d) dst tags !! tag =
    if bool_decide (tag ∈ tags) then Some res else dst !! tag.
Proof.
  revert dst. induction tags as [| t tags IH]; intros dst; simpl; [done |].
  rewrite IH. destruct (decide (tag = t)) as [-> | Hne].
  - rewrite lookup_insert_eq. rewrite (bool_decide_true (t ∈ t :: tags)) by (by left).
    by case_bool_decide.
  - rewrite lookup_insert_ne by done.
    apply (f_equal (fun b : bool => if b then Some res else dst !! tag)).
    apply bool_decide_ext. rewrite elem_of_cons. split; [by right | by intros [? |]].
Qed.

(** X27: after [TagResults] a tag is bound to its fixed value when the
    iterator fixes one, else to the result of the iterator when it is one
    of the iterator's tags, else to what the map held before. *)
Theorem TagResults_binds :
  forall (b : Base (Tagger := Tagger)) (dst : gmap string Value) (tag : string),
    TagResults Tags Fixed b dst !! tag =
      match Fixed (tags b) !! tag with
      | Some value => Some value
      | None =>
          if bool_decide (tag ∈ Tags (tags b)) then Some (result b)
          else dst !! tag
      end.
Proof.
  intros b dst tag. unfold TagResults.
  rewrite <- tag_loop.
  generalize (foldl (fun d t => <[t := result b]> d) dst (Tags (tags b))).
  intros dst1. revert tag.
  apply (map_fold_weak_ind
           (fun acc m => forall tag, acc !! tag =
              match m !! tag with Some value => Some value | None => dst1 !! tag end)).
  - intros tag. by rewrite lookup_empty.
  - intros i x m acc Hi IH tag. destruct (decide (i = tag)) as [-> | Hne].
    + by rewrite !lookup_insert_eq.
    + rewrite !lookup_insert_ne by done. apply IH.
Qed.

End iterator_more.

Section iterator_more_witnesses.
Import Iterator.

Lemma Next_enumerates_range_witness :
  let it := (NewInt64 tt init_UID 3 6).1 in
  values 10 (Reset it) =
    VInt64 <$> seqZ (min it) (Z.min (Z.of_nat 10) (max it - min it + 1)) /\
  (Nexts 10 (Reset it)).1 =
    replicate (Nat.min 10 (Z.to_nat (max it - min it + 1))) true ++
    replicate (10 - Z.to_nat (max it - min it + 1)) false /\
  (Size it).1 = max it - min it + 1.
Proof.
  intros it.
  apply (Next_enumerates_range it 10); unfold MinInt64, MaxInt64; simpl; lia.
Defined.

Lemma Next_stops_before_minus_one_witness :
  let it := (NewInt64 tt init_UID (-3) 2).1 in
  values 10 (Reset it) =
    VInt64 <$> seqZ (min it) (Z.min (Z.of_nat 10) (-1 - min it)).
Proof.
  intros it.
  apply (Next_stops_before_minus_one it 10); unfold MinInt64; simpl; lia.
Defined.


End iterator_more_witnesses.

(** ** The cache manager *)

Section cache_man_more.
Import CacheMan.
Context {Data : Type}.
Implicit Type s : fill Data.

Lemma remove_first_NoDup (k : string) (l : list string) :
  NoDup l ->
  NoDup (remove_first k l) /\
  forall x, x ∈ remove_first k l <-> x ∈ l /\ x <> k.
Proof.
  induction l as [| y l IH]; simpl; intros Hnd.
  - split; [constructor |]. intros x. rewrite elem_of_nil. tauto.
  - apply NoDup_cons in Hnd as [Hy Hnd].
    destruct (String.eqb_spec y k) as [-> | Hne].
    + split; [done |]. intros x. rewrite elem_of_cons.
      split; [intros Hx; split; [by right | by intros ->] | by intros [[-> |] ?]].
    + destruct (IH Hnd) as [Hnd' Hin]. split.
      * apply NoDup_cons. split; [| done]. rewrite Hin. tauto.
      * intros x. rewrite !elem_of_cons, Hin.
        split; [intros [-> | [? ?]]; [by split; [left |] | by split; [right |]]
               | intros [[-> | ?] ?]; [by left | by right]].
Qed.

Lemma step_in_flight_once s (e : event Data) :
  in_flight_once s -> in_flight_once (step s e).
Proof.
  unfold in_flight_once. intros (Hnd & Hk).
  destruct e as [pipe rqst | rqst resp]; simpl.
  - unfold on_pipe.
    destruct (default false (inFlight s !! rqst)) eqn:Hfl; simpl.
    + split; [done |]. intros k. split; [apply Hk |].
      destruct (decide (k = rqst)) as [-> | Hne].
      * rewrite lookup_insert_eq. destruct (Hk rqst) as [H1 _].
        split; [intros _; by apply H1 | intros _; by eexists].
      * rewrite lookup_insert_ne by done. apply Hk.
    + assert (Hnot : rqst ∉ running s).
      { intros Hin. destruct (Hk rqst) as [H1 _]. apply H1 in Hin.
        congruence. }
      split.
      * apply NoDup_app. split; [done |].
        split; [| apply NoDup_singleton].
        intros x Hx Hx'. apply list_elem_of_singleton in Hx' as ->. done.
      * intros k. rewrite elem_of_app, list_elem_of_singleton.
        destruct (decide (k = rqst)) as [-> | Hne].
        -- rewrite !lookup_insert_eq. simpl.
           split; (split; [intros _; by right | intros _; done || by eexists]).
        -- rewrite !lookup_insert_ne by done.
           destruct (Hk k) as [H1 H2].
           split; (split; [intros ?; left; tauto | intros [? | ?]; [tauto | done]]).
  - case_bool_decide as Hin; [| by split].
    unfold on_flush; simpl.
    destruct (remove_first_NoDup rqst (running s) Hnd) as [Hnd' Hrm].
    split; [done |]. intros k. rewrite Hrm.
    destruct (decide (k = rqst)) as [-> | Hne].
    + rewrite !lookup_delete_eq. simpl.
      split; (split; [| by intros [? ?]]).
      * done.
      * by intros [? ?].
    + rewrite !lookup_delete_ne by done.
      destruct (Hk k) as [H1 H2]. split; split; tauto.
Qed.

Lemma exec_snoc s (evs : list (event Data)) (e : event Data) :
  exec s (evs ++ [e]) = step (exec s evs) e.
Proof. unfold exec. by rewrite foldl_app. Qed.

(** X28: [cacheFill] keeps the requests in flight unique: whatever pipes
    arrive and whatever responses come back, no two misses are under way
    for one request, a request is marked in flight exactly while its miss
    is under way, and pipes wait for a request exactly while its miss is
    under way. *)
Theorem cacheFill_in_flight_unique :
  forall (evs : list (event Data)),
    let s := exec (start (Data := Data)) evs in
    NoDup (running s) /\
    forall k : string,
      (default false (inFlight s !! k) = true <-> k ∈ running s) /\
      (is_Some (waiting s !! k) <-> k ∈ running s).
Proof.
  intros evs. cbn zeta. change (in_flight_once (exec start evs)).
  induction evs as [| e evs IH] using rev_ind.
  - split; [constructor |]. intros k. simpl. rewrite !lookup_empty. simpl.
    rewrite elem_of_nil. split; split; try done.
  - rewrite exec_snoc. by apply step_in_flight_once.
Qed.

(** X29: [cacheFill] forgets no pipe: a pipe that came with a request
    either still waits under that request or has been sent a response. *)
Theorem cacheFill_forgets_no_pipe :
  forall (evs : list (event Data)) (pipe : nat) (rqst : string),
    EPipe pipe rqst ∈ evs ->
    let s := exec (start (Data := Data)) evs in
    pipe ∈ default [] (waiting s !! rqst) \/
    exists resp : Data, (pipe, resp) ∈ sent s.
Proof.
  intros evs pipe rqst. cbn zeta.
  induction evs as [| e evs IH] using rev_ind; [by rewrite elem_of_nil |].
  rewrite exec_snoc, elem_of_app, list_elem_of_singleton.
  intros [Hin | <-].
  - specialize (IH Hin). set (s := exec start evs) in *.
    destruct e as [p k | k resp]; simpl.
    + unfold on_pipe.
      assert (Hw : pipe ∈ default [] (<[k := default [] (waiting s !! k) ++ [p]]>
                                        (waiting s) !! rqst) \/
                   exists resp : Data, (pipe, resp) ∈ sent s).
      { destruct IH as [Hwait | Hsent]; [left | by right].
        destruct (decide (k = rqst)) as [-> | Hne].
        - rewrite lookup_insert_eq. simpl. apply elem_of_app. by left.
        - by rewrite lookup_insert_ne. }
      by destruct (default false (inFlight s !! k)).
    + case_bool_decide; [| done]. unfold on_flush; simpl.
      destruct IH as [Hwait | [r Hsent]].
      * destruct (decide (k = rqst)) as [-> | Hne].
        -- right. exists resp. apply elem_of_app. right.
           apply list_elem_of_fmap. by exists pipe.
        -- left. by rewrite lookup_delete_ne.
      * right. exists r. apply elem_of_app. by left.
  - left. simpl. unfold on_pipe.
    set (s := exec start evs).
    assert (Hw : pipe ∈ default [] (<[rqst := default [] (waiting s !! rqst) ++ [pipe]]>
                                      (waiting s) !! rqst)).
    { rewrite lookup_insert_eq. simpl. apply elem_of_app. right. by left. }
    by destruct (default false (inFlight s !! rqst)).
Qed.

(** X30: [hit] hands a request to [cacheFill] exactly when the request is
    not empty and its key is not in the cache; a key that is in the cache
    is never fetched again, however old its entry, and once [hit] sends
    nothing for it, it sends nothing at every later instant. *)
Theorem hit_never_refreshes :
  forall (cache : lru Data) (cacheTimeout now later : Z) (rqst : string),
    (forall k, hit cache cacheTimeout now rqst = Relays k <->
               rqst <> ""%string /\ cache !! rqst = None /\ k = rqst) /\
    (now <= later ->
     hit cache cacheTimeout now rqst = SendsNothing ->
     hit cache cacheTimeout later rqst = SendsNothing).
Proof.
  intros cache cacheTimeout now later rqst. unfold hit.
  destruct (String.eqb_spec rqst "") as [-> | Hne].
  - split; [| done]. intros k. split; [done | by intros [? _]].
  - destruct (cache !! rqst) as [[val |] |].
    + split.
      * intros k. split; [by destruct (_ <? _) | by intros (_ & ? & _)].
      * intros Hle.
        pose proof (Sub_mono now later (birth val) Hle). unfold CacheStore.Since.
        destruct (Z.ltb_spec (CacheStore.Sub now (birth val)) cacheTimeout);
          [done |].
        by destruct (Z.ltb_spec (CacheStore.Sub later (birth val)) cacheTimeout);
          [lia |].
    + split; [| done]. intros k. split; [done | by intros (_ & ? & _)].
    + split; [| done]. intros k. split; [by intros [= <-] | by intros (_ & _ & ->)].
Qed.

End cache_man_more.

Section cache_man_more_witnesses.
Import CacheMan.

Lemma cacheFill_forgets_no_pipe_witness :
  let evs := [EPipe 0 "size"; EPipe 1 "size"; EFlush "size" 42%nat] in
  let s := exec (start (Data := nat)) evs in
  1%nat ∈ default [] (waiting s !! "size"%string) \/
  exists resp : nat, (1%nat, resp) ∈ sent s.
Proof.
  intros evs.
  apply (cacheFill_forgets_no_pipe evs 1 "size").
  apply elem_of_cons. right. apply elem_of_cons. by left.
Defined.

End cache_man_more_witnesses.
